(** * Vitalidade voice assistant: device registry, tool dispatch and
      session lifecycle of [App.tsx]

    A shallow embedding of the stateful part of the [App] component: the
    device handlers, the [onmessage] tool-call loop, the playback scheduler
    and the connect / microphone / disconnect lifecycle.  React state, the
    refs and the effects on the Web Audio graph and on the live session are
    threaded explicitly through one record. *)

From Stdlib Require Import List String Ascii Bool Arith Lia QArith Qminmax Lqa.
From Stdlib Require Import DecimalString.
Import ListNotations.
Open Scope string_scope.

Set Implicit Arguments.

(** ** JavaScript runtime and helper module

    [String.prototype.toLowerCase], the conversion of a number inside a
    template literal and [decodeAudioData] (imported from
    [./utils/audioUtils], composed here with [base64ToUint8Array]) and
    [createPcmBlob] (same module) are not part of the component.  They are
    taken as an interface; every general theorem below holds for any
    implementation of it.  Numbers are exact rationals. *)

(** The only field of an [AudioBuffer] the component reads. *)
Record AudioBuffer := mkAudioBuffer { duration : Q }.

Class Runtime := {
  toLowerCase : string -> string;
  numberToString : Q -> string;
  decodeAudioData : string -> AudioBuffer;
  createPcmBlob : list Q -> string
}.

(** ** Data model *)

Module DeviceType.
(** The members of [DeviceType] used by [INITIAL_DEVICES]. *)
Inductive t := LIGHT | AC | BLIND | APPLIANCE.
End DeviceType.

(** [value] is optional in [Device] (the Smart TV has none). *)
Record Device := mkDevice {
  id : string;
  name : string;
  type : DeviceType.t;
  isOn : bool;
  value : option Q;
  room : string
}.

Definition INITIAL_DEVICES : list Device :=
  [ mkDevice "1" "Luz da Sala" DeviceType.LIGHT false (Some 80%Q) "Sala de Estar";
    mkDevice "2" "Ar Condicionado" DeviceType.AC true (Some 24%Q) "Quarto Principal";
    mkDevice "3" "Persiana" DeviceType.BLIND false (Some 0%Q) "Sala de Estar";
    mkDevice "4" "Luz da Cozinha" DeviceType.LIGHT true (Some 100%Q) "Cozinha";
    mkDevice "5" "Smart TV" DeviceType.APPLIANCE false None "Sala de Estar";
    mkDevice "6" "Luz de Leitura" DeviceType.LIGHT false (Some 50%Q) "Quarto Principal" ].

(** ** Device handlers

    [setDevices(prev => prev.map(...))]: the updater is a pure function of
    the previous device list. *)

(** [{ ...d, isOn: !d.isOn }] *)
Definition flipPower (d : Device) : Device :=
  mkDevice (id d) (name d) (type d) (negb (isOn d)) (value d) (room d).

(** [{ ...d, value }]; the argument comes from [(args as any).value] and is
    [undefined] ([None]) when the call carries no value. *)
Definition withValue (v : option Q) (d : Device) : Device :=
  mkDevice (id d) (name d) (type d) (isOn d) v (room d).

Definition toggleDevice (target : string) (prev : list Device) : list Device :=
  map (fun d => if String.eqb (id d) target then flipPower d else d) prev.

Definition changeDeviceValue (target : string) (v : option Q)
    (prev : list Device) : list Device :=
  map (fun d => if String.eqb (id d) target then withValue v d else d) prev.

(** ** Strings *)

(** [s.includes(sub)]: [sub] occurs in [s] at some offset. *)
Fixpoint includes (s sub : string) : bool :=
  String.prefix sub s ||
  match s with
  | EmptyString => false
  | String _ rest => includes rest sub
  end.

(** [devicesRef.current.find(d =>
      d.name.toLowerCase().includes(deviceName.toLowerCase()))] *)
Definition matchesName `{Runtime} (deviceName : string) (d : Device) : bool :=
  includes (toLowerCase (name d)) (toLowerCase deviceName).

Definition findDevice `{Runtime} (deviceName : string)
    (current : list Device) : option Device :=
  List.find (matchesName deviceName) current.

(** ** Tool calls and their results

    The handler reads [args] through [(args as any)], so nothing is
    checked on arrival: [deviceName] is [Some q] when the call carries the
    string [q] and [None] when it carries no string there (no [args], no
    [deviceName], or a value of another type); [action] and [value] are
    [None] when absent ([undefined]). *)

Module Args.
Record t := mk { deviceName : option string; action : option string; value : option Q }.
End Args.

Module FunctionCall.
Record t := mk { name : string; args : Args.t; id : string }.
End FunctionCall.

Module ToolResult.
Record t := mk { status : string; message : string }.
End ToolResult.

(** [{ id, name, response: { result } }] *)
Module FunctionResponse.
Record t := mk { id : string; name : string; result : ToolResult.t }.
End FunctionResponse.

(** [`${value}`] for a value that may be [undefined]. *)
Definition valueToString `{Runtime} (v : option Q) : string :=
  match v with
  | Some q => numberToString q
  | None => "undefined"
  end.

(** What a piece of the handler does: it returns, or it throws the
    [TypeError] of a method call on [undefined]. *)
Inductive Outcome (A : Type) :=
| Returned (a : A)
| TypeError.
Arguments TypeError {A}.

(** [devicesRef.current.find(d =>
      d.name.toLowerCase().includes((args as any).deviceName.toLowerCase()))]:
    the callback calls [toLowerCase] on [deviceName] for the first device
    it is given, so without a string there it throws, unless the list is
    empty and the callback never runs. *)
Definition findTarget `{Runtime} (deviceName : option string)
    (current : list Device) : Outcome (option Device) :=
  match deviceName, current with
  | Some q, _ => Returned (findDevice q current)
  | None, [] => Returned None
  | None, _ :: _ => TypeError
  end.

(** One iteration of [for (const fc of msg.toolCall.functionCalls)].
    [current] is [devicesRef.current]; the device list threaded through is
    the React state the queued updaters are applied to. *)
Definition handleCall `{Runtime} (current : list Device) (fc : FunctionCall.t)
    (devs : list Device) : Outcome (list Device * FunctionResponse.t) :=
  let args := FunctionCall.args fc in
  let unknown := ToolResult.mk "error" "Unknown device" in
  let push := fun result =>
    FunctionResponse.mk (FunctionCall.id fc) (FunctionCall.name fc) result in
  if String.eqb (FunctionCall.name fc) "controlDevice" then
    match findTarget (Args.deviceName args) current with
    | Returned (Some target) =>
        let shouldBeOn :=
          match Args.action args with
          | Some a => String.eqb a "turnOn"
          | None => false
          end in
        Returned
          (toggleDevice (id target) devs,
           push (ToolResult.mk "ok"
                   (name target ++ " agora está "
                      ++ (if shouldBeOn then "ligado" else "desligado"))))
    | Returned None => Returned (devs, push unknown)
    | TypeError => TypeError
    end
  else if String.eqb (FunctionCall.name fc) "setDeviceValue" then
    match findTarget (Args.deviceName args) current with
    | Returned (Some target) =>
        Returned
          (changeDeviceValue (id target) (Args.value args) devs,
           push (ToolResult.mk "ok"
                   (name target ++ " ajustado para "
                      ++ valueToString (Args.value args))))
    | Returned None => Returned (devs, push unknown)
    | TypeError => TypeError
    end
  else Returned (devs, push unknown).

(** The whole loop; [functionResponses.push] appends at the end.  A throw
    leaves the loop at once: the updaters queued by the calls before it
    stay queued, the array is lost. *)
Fixpoint toolLoop `{Runtime} (current : list Device)
    (calls : list FunctionCall.t) (devs : list Device)
    (functionResponses : list FunctionResponse.t)
    : list Device * Outcome (list FunctionResponse.t) :=
  match calls with
  | [] => (devs, Returned functionResponses)
  | fc :: rest =>
      match handleCall current fc devs with
      | Returned (devs', r) =>
          toolLoop current rest devs' (functionResponses ++ [r])
      | TypeError => (devs, TypeError)
      end
  end.

(** ** The browser and the live session

    What the component acquires, wires and sends.  Audio contexts, graph
    nodes, media streams and session promises are handles drawn from a
    counter. *)

Inductive Outbound :=
| ToolResponse (functionResponses : list FunctionResponse.t)
| RealtimeInput (media : string).

Record World := mkWorld {
  fresh : nat;
  openContexts : list nat;        (* created and not closed *)
  liveSources : list nat;         (* stream sources wired into the graph *)
  liveProcessors : list nat;      (* script processors wired to a destination *)
  streams : list nat;             (* media streams handed out by getUserMedia *)
  pendingHandshakes : nat;        (* [ai.live.connect] promises not yet open *)
  pendingMicRequests : nat;       (* [getUserMedia] promises not yet settled *)
  scheduled : list (Q * AudioBuffer);   (* [src.start(startAt)] *)
  outbox : list Outbound;         (* messages handed to the session *)
  console : list string
}.

Definition emptyWorld : World := mkWorld 0 [] [] [] [] 0 0 [] [] [].

Definition remove_handle (h : nat) (l : list nat) : list nat :=
  filter (fun x => negb (Nat.eqb x h)) l.

Definition allocate (w : World) : World :=
  mkWorld (S (fresh w)) (openContexts w) (liveSources w) (liveProcessors w)
    (streams w) (pendingHandshakes w) (pendingMicRequests w) (scheduled w)
    (outbox w) (console w).

Definition with_openContexts (l : list nat) (w : World) : World :=
  mkWorld (fresh w) l (liveSources w) (liveProcessors w)
    (streams w) (pendingHandshakes w) (pendingMicRequests w) (scheduled w)
    (outbox w) (console w).

Definition with_liveSources (l : list nat) (w : World) : World :=
  mkWorld (fresh w) (openContexts w) l (liveProcessors w)
    (streams w) (pendingHandshakes w) (pendingMicRequests w) (scheduled w)
    (outbox w) (console w).

Definition with_liveProcessors (l : list nat) (w : World) : World :=
  mkWorld (fresh w) (openContexts w) (liveSources w) l
    (streams w) (pendingHandshakes w) (pendingMicRequests w) (scheduled w)
    (outbox w) (console w).

Definition with_streams (l : list nat) (w : World) : World :=
  mkWorld (fresh w) (openContexts w) (liveSources w) (liveProcessors w)
    l (pendingHandshakes w) (pendingMicRequests w) (scheduled w)
    (outbox w) (console w).

Definition with_pendingHandshakes (n : nat) (w : World) : World :=
  mkWorld (fresh w) (openContexts w) (liveSources w) (liveProcessors w)
    (streams w) n (pendingMicRequests w) (scheduled w)
    (outbox w) (console w).

Definition with_pendingMicRequests (n : nat) (w : World) : World :=
  mkWorld (fresh w) (openContexts w) (liveSources w) (liveProcessors w)
    (streams w) (pendingHandshakes w) n (scheduled w)
    (outbox w) (console w).

Definition with_scheduled (l : list (Q * AudioBuffer)) (w : World) : World :=
  mkWorld (fresh w) (openContexts w) (liveSources w) (liveProcessors w)
    (streams w) (pendingHandshakes w) (pendingMicRequests w) l
    (outbox w) (console w).

Definition with_outbox (l : list Outbound) (w : World) : World :=
  mkWorld (fresh w) (openContexts w) (liveSources w) (liveProcessors w)
    (streams w) (pendingHandshakes w) (pendingMicRequests w) (scheduled w)
    l (console w).

Definition with_console (l : list string) (w : World) : World :=
  mkWorld (fresh w) (openContexts w) (liveSources w) (liveProcessors w)
    (streams w) (pendingHandshakes w) (pendingMicRequests w) (scheduled w)
    (outbox w) l.

(** [new AudioContext(...)] *)
Definition newAudioContext (w : World) : World :=
  allocate (with_openContexts (openContexts w ++ [fresh w]) w).

(** [ctx.close()] *)
Definition closeContext (h : nat) (w : World) : World :=
  with_openContexts (remove_handle h (openContexts w)) w.

(** [source.disconnect()] and [processor.disconnect()] *)
Definition disconnectSource (h : nat) (w : World) : World :=
  with_liveSources (remove_handle h (liveSources w)) w.

Definition disconnectProcessor (h : nat) (w : World) : World :=
  with_liveProcessors (remove_handle h (liveProcessors w)) w.

(** [session.sendToolResponse] / [session.sendRealtimeInput] *)
Definition send (m : Outbound) (w : World) : World :=
  with_outbox (outbox w ++ [m]) w.

(** [console.error] *)
Definition console_error (m : string) (w : World) : World :=
  with_console (console w ++ [m]) w.

(** ** Component state: [useState] cells, refs and the world around them

    A state setter takes effect for the next callback; the only stale copy
    the component keeps is [devicesRef], which is brought up to date by the
    effect that follows a render ([syncDevicesRef]). *)

Record App := mkApp {
  devices : list Device;
  isLiveConnected : bool;
  isAudioStreamActive : bool;
  statusMessage : string;
  audioContextRef : option nat;
  inputSourceRef : option nat;
  processorRef : option nat;
  nextStartTimeRef : Q;
  sessionRef : option nat;
  devicesRef : list Device;
  world : World
}.

Definition initialApp : App :=
  mkApp INITIAL_DEVICES false false "Toque no microfone para falar"
    None None None 0%Q None INITIAL_DEVICES emptyWorld.

(** [setDevices] with a functional updater. *)
Definition setDevices (f : list Device -> list Device) (s : App) : App :=
  mkApp (f (devices s)) (isLiveConnected s) (isAudioStreamActive s)
    (statusMessage s) (audioContextRef s) (inputSourceRef s) (processorRef s)
    (nextStartTimeRef s) (sessionRef s) (devicesRef s) (world s).

Definition setIsLiveConnected (b : bool) (s : App) : App :=
  mkApp (devices s) b (isAudioStreamActive s)
    (statusMessage s) (audioContextRef s) (inputSourceRef s) (processorRef s)
    (nextStartTimeRef s) (sessionRef s) (devicesRef s) (world s).

Definition setIsAudioStreamActive (b : bool) (s : App) : App :=
  mkApp (devices s) (isLiveConnected s) b
    (statusMessage s) (audioContextRef s) (inputSourceRef s) (processorRef s)
    (nextStartTimeRef s) (sessionRef s) (devicesRef s) (world s).

Definition setStatusMessage (m : string) (s : App) : App :=
  mkApp (devices s) (isLiveConnected s) (isAudioStreamActive s)
    m (audioContextRef s) (inputSourceRef s) (processorRef s)
    (nextStartTimeRef s) (sessionRef s) (devicesRef s) (world s).

Definition set_audioContextRef (r : option nat) (s : App) : App :=
  mkApp (devices s) (isLiveConnected s) (isAudioStreamActive s)
    (statusMessage s) r (inputSourceRef s) (processorRef s)
    (nextStartTimeRef s) (sessionRef s) (devicesRef s) (world s).

Definition set_inputSourceRef (r : option nat) (s : App) : App :=
  mkApp (devices s) (isLiveConnected s) (isAudioStreamActive s)
    (statusMessage s) (audioContextRef s) r (processorRef s)
    (nextStartTimeRef s) (sessionRef s) (devicesRef s) (world s).

Definition set_processorRef (r : option nat) (s : App) : App :=
  mkApp (devices s) (isLiveConnected s) (isAudioStreamActive s)
    (statusMessage s) (audioContextRef s) (inputSourceRef s) r
    (nextStartTimeRef s) (sessionRef s) (devicesRef s) (world s).

Definition set_nextStartTimeRef (t : Q) (s : App) : App :=
  mkApp (devices s) (isLiveConnected s) (isAudioStreamActive s)
    (statusMessage s) (audioContextRef s) (inputSourceRef s) (processorRef s)
    t (sessionRef s) (devicesRef s) (world s).

Definition set_sessionRef (r : option nat) (s : App) : App :=
  mkApp (devices s) (isLiveConnected s) (isAudioStreamActive s)
    (statusMessage s) (audioContextRef s) (inputSourceRef s) (processorRef s)
    (nextStartTimeRef s) r (devicesRef s) (world s).

Definition set_devicesRef (l : list Device) (s : App) : App :=
  mkApp (devices s) (isLiveConnected s) (isAudioStreamActive s)
    (statusMessage s) (audioContextRef s) (inputSourceRef s) (processorRef s)
    (nextStartTimeRef s) (sessionRef s) l (world s).

Definition inWorld (f : World -> World) (s : App) : App :=
  mkApp (devices s) (isLiveConnected s) (isAudioStreamActive s)
    (statusMessage s) (audioContextRef s) (inputSourceRef s) (processorRef s)
    (nextStartTimeRef s) (sessionRef s) (devicesRef s) (f (world s)).

(** [useEffect(() => { devicesRef.current = devices }, [devices])] *)
Definition syncDevicesRef (s : App) : App := set_devicesRef (devices s) s.

(** ** Playback scheduler *)

(** [Math.max(ctxTime, nextStartTimeRef.current)] is [Qmax]: the second
    argument when the first is smaller, the first otherwise. *)
Definition playAudioBuffer (ctxTime : Q) (buffer : AudioBuffer) (s : App) : App :=
  match audioContextRef s with
  | None => s
  | Some _ =>
      let startAt := Qmax ctxTime (nextStartTimeRef s) in
      let s := inWorld (fun w => with_scheduled (scheduled w ++ [(startAt, buffer)]) w) s in
      set_nextStartTimeRef (startAt + duration buffer)%Q s
  end.

(** ** Session lifecycle *)

Definition disconnect (s : App) : App :=
  let s := setIsLiveConnected false s in
  let s := setIsAudioStreamActive false s in
  let s := setStatusMessage "Toque no microfone para falar" s in
  let s := match processorRef s with
           | Some p => set_processorRef None (inWorld (disconnectProcessor p) s)
           | None => s
           end in
  let s := match inputSourceRef s with
           | Some i => set_inputSourceRef None (inWorld (disconnectSource i) s)
           | None => s
           end in
  let s := match audioContextRef s with
           | Some c => set_audioContextRef None (inWorld (closeContext c) s)
           | None => s
           end in
  let s := set_sessionRef None s in
  set_nextStartTimeRef 0%Q s.

(** The body of [connectToGemini] up to [sessionRef.current = sessionPromise];
    the handshake stays pending until the session opens. *)
Definition connectToGemini (s : App) : App :=
  let s := setStatusMessage "Conectando..." s in
  let ctx := fresh (world s) in
  let s := inWorld newAudioContext s in
  let s := set_audioContextRef (Some ctx) s in
  let sessionPromise := fresh (world s) in
  let s := inWorld (fun w => allocate (with_pendingHandshakes (S (pendingHandshakes w)) w)) s in
  set_sessionRef (Some sessionPromise) s.

(** The [catch] of [connectToGemini]. *)
Definition connectCatch (s : App) : App :=
  let s := inWorld (console_error "Connection failed") s in
  let s := setStatusMessage "Falha ao iniciar. Verifique o microfone." s in
  disconnect s.

(** [startMicrophone] up to [await getUserMedia(...)]. *)
Definition startMicrophone (s : App) : App :=
  inWorld (fun w => with_pendingMicRequests (S (pendingMicRequests w)) w) s.

(** [startMicrophone] after the stream is granted. *)
Definition microphoneGranted (s : App) : App :=
  let stream := fresh (world s) in
  let s := inWorld (fun w => allocate (with_streams (streams w ++ [stream]) w)) s in
  let s := inWorld newAudioContext s in
  let source := fresh (world s) in
  let s := inWorld allocate s in
  let processor := fresh (world s) in
  let s := inWorld allocate s in
  let s := inWorld (fun w => with_liveSources (liveSources w ++ [source]) w) s in
  let s := inWorld (fun w => with_liveProcessors (liveProcessors w ++ [processor]) w) s in
  let s := set_inputSourceRef (Some source) s in
  let s := set_processorRef (Some processor) s in
  setIsAudioStreamActive true s.

(** The [catch] of [startMicrophone]. *)
Definition microphoneDenied (s : App) : App :=
  inWorld (console_error "Mic error") s.

Definition onopen (s : App) : App :=
  let s := setIsLiveConnected true s in
  let s := setStatusMessage "Ouvindo... Pode falar." s in
  startMicrophone s.

Definition onclose (s : App) : App := disconnect s.

Definition onerror (s : App) : App :=
  let s := inWorld (console_error "Gemini Error") s in
  let s := setStatusMessage "Erro na conexão. Tente novamente." s in
  disconnect s.

Definition toggleConnection (s : App) : App :=
  if isLiveConnected s then disconnect s else connectToGemini s.

(** ** Inbound messages *)

(** [audioData] is [msg.serverContent?.modelTurn?.parts?.[0]?.inlineData?.data];
    [toolCall] is [msg.toolCall], which carries its [functionCalls] array. *)
Record LiveServerMessage := mkMessage {
  audioData : option string;
  toolCall : option (list FunctionCall.t)
}.

(** [onmessage]; [ctxTime] is what [audioContextRef.current.currentTime]
    reads when the decoded buffer is scheduled.  Decoding is a function of
    the payload, so the handler is run as one piece: no other callback is
    placed between [await decodeAudioData(...)] and the rest of the body.
    [sessionPromise.then(...)] runs at once, the session being open when a
    message arrives.  When the loop throws, the [async] handler rejects:
    what was done before the throw stays done and [sendToolResponse] is
    not reached. *)
Definition onmessage `{Runtime} (msg : LiveServerMessage) (ctxTime : Q)
    (s : App) : App :=
  let s :=
    match audioData msg, audioContextRef s with
    | Some data, Some _ =>
        if String.eqb data "" then s
        else playAudioBuffer ctxTime (decodeAudioData data) s
    | _, _ => s
    end in
  match toolCall msg with
  | Some functionCalls =>
      let '(devs, outcome) :=
        toolLoop (devicesRef s) functionCalls (devices s) [] in
      let s := setDevices (fun _ => devs) s in
      match outcome with
      | Returned functionResponses =>
          inWorld (send (ToolResponse functionResponses)) s
      | TypeError => s
      end
  | None => s
  end.

(** [processor.onaudioprocess] *)
Definition onaudioprocess `{Runtime} (inputData : list Q) (s : App) : App :=
  inWorld (send (RealtimeInput (createPcmBlob inputData))) s.

(** ** Events

    Everything that can run a piece of the component: the microphone
    button, the device cards, a commit of React state, and the callbacks of
    the session, of [getUserMedia] and of the script processor. *)

Inductive Event :=
| Click
| CardToggle (target : string)
| CardChange (target : string) (v : Q)
| Commit
| Open
| MicGranted
| MicDenied
| Message (msg : LiveServerMessage) (ctxTime : Q)
| Close
| Error
| AudioProcess (processor : nat) (inputData : list Q).

(** A callback can only fire for a promise that is pending or a processor
    that is still wired; [None] is an event the environment cannot
    produce in that state. *)
Definition step `{Runtime} (e : Event) (s : App) : option App :=
  match e with
  | Click => Some (toggleConnection s)
  | CardToggle target => Some (setDevices (toggleDevice target) s)
  | CardChange target v => Some (setDevices (changeDeviceValue target (Some v)) s)
  | Commit => Some (syncDevicesRef s)
  | Open =>
      match pendingHandshakes (world s) with
      | O => None
      | S n => Some (onopen (inWorld (with_pendingHandshakes n) s))
      end
  | MicGranted =>
      match pendingMicRequests (world s) with
      | O => None
      | S n => Some (microphoneGranted (inWorld (with_pendingMicRequests n) s))
      end
  | MicDenied =>
      match pendingMicRequests (world s) with
      | O => None
      | S n => Some (microphoneDenied (inWorld (with_pendingMicRequests n) s))
      end
  | Message msg ctxTime => Some (onmessage msg ctxTime s)
  | Close => Some (onclose s)
  | Error => Some (onerror s)
  | AudioProcess processor inputData =>
      if existsb (Nat.eqb processor) (liveProcessors (world s))
      then Some (onaudioprocess inputData s)
      else None
  end.

Fixpoint run `{Runtime} (es : list Event) (s : App) : option App :=
  match es with
  | [] => Some s
  | e :: rest =>
      match step e s with
      | Some s' => run rest s'
      | None => None
      end
  end.

(** ** A runtime for closed examples

    On ASCII text [toLowerCase] maps [A]-[Z] to [a]-[z] and leaves every
    other character alone; the names and queries of the examples below are
    ASCII.  Numbers are printed for the integers the examples use. *)

Definition lowerAscii (c : ascii) : ascii :=
  let n := nat_of_ascii c in
  if (65 <=? n)%nat && (n <=? 90)%nat then ascii_of_nat (n + 32) else c.

Fixpoint lowerString (s : string) : string :=
  match s with
  | EmptyString => EmptyString
  | String c rest => String (lowerAscii c) (lowerString rest)
  end.

Definition asciiRuntime : Runtime :=
  {| toLowerCase := lowerString;
     numberToString := fun q =>
       NilEmpty.string_of_int (Z.to_int (Qnum q / Zpos (Qden q)));
     decodeAudioData := fun data => mkAudioBuffer (inject_Z (Z.of_nat (String.length data)));
     createPcmBlob := fun _ => "" |}.

(** ** What the claims speak about *)

(** A name contains a query ignoring case: after lower-casing both, the
    query occurs in the name at some offset. *)
Definition containsIgnoringCase `{Runtime} (q n : string) : Prop :=
  exists pre post, toLowerCase n = pre ++ toLowerCase q ++ post.

(** The power states of the devices carrying an id, in registry order. *)
Definition powerOf (target : string) (l : list Device) : list bool :=
  map isOn (filter (fun d => String.eqb (id d) target) l).

(** The call reads [deviceName]: its name selects one of the two branches. *)
Definition readsDeviceName (fc : FunctionCall.t) : bool :=
  String.eqb (FunctionCall.name fc) "controlDevice" ||
  String.eqb (FunctionCall.name fc) "setDeviceValue".

(** The call carries what its branch reads: a string [deviceName] when it
    is a [controlDevice] or a [setDeviceValue] call, as the two tool
    declarations require. *)
Definition wellFormed (fc : FunctionCall.t) : bool :=
  if readsDeviceName fc
  then match Args.deviceName (FunctionCall.args fc) with
       | Some _ => true
       | None => false
       end
  else true.

(** [r] is the entry the loop pushes for [fc]. *)
Definition answers `{Runtime} (current : list Device) (fc : FunctionCall.t)
    (r : FunctionResponse.t) : Prop :=
  exists devs devs', handleCall current fc devs = Returned (devs', r).

(** No session resource is held: the shape of the component both before
    the first connection (Idle) and after a teardown (Closed). *)
Definition released (s : App) : Prop :=
  isLiveConnected s = false /\ isAudioStreamActive s = false /\
  statusMessage s = "Toque no microfone para falar" /\
  processorRef s = None /\ inputSourceRef s = None /\
  audioContextRef s = None /\ sessionRef s = None /\
  nextStartTimeRef s = 0%Q.

(** ** Render helpers of [App] *)

(** [devices.filter(d => d.isOn).length] *)
Definition activeCount (l : list Device) : nat := List.length (filter isOn l).

(** The sentence under the welcome heading. *)
Definition heroText `{Runtime} (l : list Device) : string :=
  if Nat.eqb (activeCount l) 0
  then "Tudo tranquilo. Nenhum dispositivo ligado."
  else numberToString (inject_Z (Z.of_nat (activeCount l)))
         ++ " dispositivos estão ativos no momento.".

(** [devices.map(d => `${d.name} (no cômodo ${d.room})`).join(', ')], the
    device list placed in the system instruction by [connectToGemini]. *)
Definition deviceListString (l : list Device) : string :=
  String.concat ", " (map (fun d => name d ++ " (no cômodo " ++ room d ++ ")") l).

(** ** [DeviceCard] and [AudioVisualizer] *)

(** [device.value || 0]: 0 when the value is missing or is 0 itself. *)
Definition valueOrZero (d : Device) : Q :=
  match value d with
  | Some v => if Qeq_bool v 0 then 0%Q else v
  | None => 0%Q
  end.

(** [device.value !== undefined && device.isOn]: the two buttons are rendered. *)
Definition controlsShown (d : Device) : bool :=
  match value d with
  | Some _ => isOn d
  | None => false
  end.

(** [Math.max(0, (device.value || 0) - 10)] *)
Definition decreased (d : Device) : Q := Qmax 0 (valueOrZero d - 10).

(** [Math.min(100, (device.value || 0) + 10)] *)
Definition increased (d : Device) : Q := Qmin 100 (valueOrZero d + 10).

(** The events the buttons of the card of [d] raise. *)
Definition pressMinus (d : Device) : Event := CardChange (id d) (decreased d).
Definition pressPlus (d : Device) : Event := CardChange (id d) (increased d).

(** [const bars = 5] and the height of a bar in percent, [random] being
    what [Math.random()] returned. *)
Definition bars : nat := 5.

Definition barHeight (isActive : bool) (random : Q) : Q :=
  if isActive then Qmax 20 (random * 100) else 20%Q.

(** ** Sequences and invariants *)

(** Successive calls of [playAudioBuffer], one per arriving buffer with the
    clock reading at its arrival. *)
Fixpoint playAll (arrivals : list (Q * AudioBuffer)) (s : App) : App :=
  match arrivals with
  | [] => s
  | (ctxTime, buffer) :: rest => playAll rest (playAudioBuffer ctxTime buffer s)
  end.

(** No entry starts before [from] nor before the previous entry has ended. *)
Fixpoint noOverlap (from : Q) (entries : list (Q * AudioBuffer)) : Prop :=
  match entries with
  | [] => True
  | (startAt, buffer) :: rest =>
      (from <= startAt)%Q /\ noOverlap (startAt + duration buffer)%Q rest
  end.

(** Every entry starts exactly where the previous one ends, the first at
    [from]. *)
Fixpoint backToBack (from : Q) (entries : list (Q * AudioBuffer)) : Prop :=
  match entries with
  | [] => True
  | (startAt, buffer) :: rest =>
      startAt = from /\ backToBack (startAt + duration buffer)%Q rest
  end.

(** What identifies a device and never changes. *)
Definition identity (d : Device) : string * string * DeviceType.t * string :=
  (id d, name d, type d, room d).

(** The refs point at resources that are still wired or open, and the
    stream flag says whether capture refs are held. *)
Definition consistent (s : App) : Prop :=
  (forall p, processorRef s = Some p ->
     In p (liveProcessors (world s)) /\ (p < fresh (world s))%nat) /\
  (forall i, inputSourceRef s = Some i -> In i (liveSources (world s))) /\
  (forall c, audioContextRef s = Some c ->
     In c (openContexts (world s)) /\ (c < fresh (world s))%nat) /\
  (isAudioStreamActive s = true <-> processorRef s <> None) /\
  (processorRef s = None <-> inputSourceRef s = None).

(** A wired script processor that no ref points at. *)
Definition strayProcessor (p : nat) (s : App) : Prop :=
  In p (liveProcessors (world s)) /\ processorRef s <> Some p /\
  (p < fresh (world s))%nat.

(** An open audio context that no ref points at. *)
Definition orphaned (c : nat) (s : App) : Prop :=
  In c (openContexts (world s)) /\ audioContextRef s <> Some c /\
  (c < fresh (world s))%nat.

(** The events that leave the session resources alone. *)
Definition sameSession (s s' : App) : Prop :=
  processorRef s' = processorRef s /\ inputSourceRef s' = inputSourceRef s /\
  audioContextRef s' = audioContextRef s /\
  isAudioStreamActive s' = isAudioStreamActive s /\
  openContexts (world s') = openContexts (world s) /\
  liveSources (world s') = liveSources (world s) /\
  liveProcessors (world s') = liveProcessors (world s) /\
  streams (world s') = streams (world s) /\
  fresh (world s') = fresh (world s).

(** The three texts the status line can show. *)
Definition shownStatus (m : string) : Prop :=
  m = "Toque no microfone para falar" \/ m = "Conectando..." \/
  m = "Ouvindo... Pode falar.".

(** Every value present in the registry lies between 0 and 100. *)
Definition inRange (l : list Device) : Prop :=
  forall d v, In d l -> value d = Some v -> (0 <= v <= 100)%Q.

(** A runtime whose encoder keeps the number of samples visible. *)
Definition countingRuntime : Runtime :=
  {| toLowerCase := lowerString;
     numberToString := fun _ => "";
     decodeAudioData := fun _ => mkAudioBuffer 0;
     createPcmBlob := fun inputData =>
       NilEmpty.string_of_uint (Nat.to_uint (List.length inputData)) |}.

(** * Strings and lists *)

Lemma prefix_app (p s : string) :
  String.prefix p s = true <-> exists post, s = p ++ post.
Proof.
  revert p. induction s as [|c' s IH]; intros [|c p]; simpl.
  - split; [intros _; now exists "" | reflexivity].
  - split; [discriminate | intros [post E]; discriminate].
  - split; [intros _; now exists (String c' s) | reflexivity].
  - destruct (Ascii.ascii_dec c c') as [->|Hne].
    + rewrite IH. split; intros [post E]; exists post.
      * now rewrite E.
      * now injection E.
    + split; [discriminate | intros [post E]; injection E; congruence].
Qed.

Lemma includes_correct (s sub : string) :
  includes s sub = true <-> exists pre post, s = pre ++ sub ++ post.
Proof.
  induction s as [|c s IH]; cbn [includes]; rewrite orb_true_iff, prefix_app.
  - split.
    + intros [[post E]|F]; [now exists "", post | discriminate].
    + intros [pre [post E]]. left. destruct pre; [now exists post | discriminate].
  - rewrite IH. split.
    + intros [[post E]|[pre [post E]]].
      * now exists "", post.
      * exists (String c pre), post. simpl. now rewrite E.
    + intros [pre [post E]]. destruct pre as [|c' pre]; simpl in E.
      * left. now exists post.
      * right. injection E as _ E. now exists pre, post.
Qed.

Lemma matchesName_iff `{Runtime} (q : string) (d : Device) :
  matchesName q d = true <-> containsIgnoringCase q (name d).
Proof. apply includes_correct. Qed.

(** [Array.prototype.find] returns the first element that satisfies the
    predicate. *)
Lemma find_first {A} (f : A -> bool) (l : list A) (x : A) :
  find f l = Some x <->
  exists before after, l = (before ++ x :: after)%list /\ f x = true /\
    forall y, In y before -> f y = false.
Proof.
  induction l as [|a l IH]; simpl.
  - split; [discriminate | intros [[|? ?] [? [E _]]]; discriminate].
  - destruct (f a) eqn:Fa.
    + split.
      * intros E. injection E as <-. exists [], l. repeat split; auto.
        intros y [].
      * intros [[|b before] [after [E [Fx Hb]]]]; simpl in E; injection E as -> ->.
        -- reflexivity.
        -- rewrite (Hb b (or_introl eq_refl)) in Fa. discriminate.
    + rewrite IH. split.
      * intros [before [after [-> [Fx Hb]]]]. exists (a :: before), after.
        repeat split; auto. intros y [<-|Hy]; auto.
      * intros [[|b before] [after [E [Fx Hb]]]]; simpl in E; injection E as -> ->.
        -- congruence.
        -- exists before, after. repeat split; auto. intros y Hy. apply Hb. now right.
Qed.

Lemma find_none_iff {A} (f : A -> bool) (l : list A) :
  find f l = None <-> forall y, In y l -> f y = false.
Proof.
  split; [apply find_none|].
  induction l as [|a l IH]; simpl; intros Hl; [reflexivity|].
  rewrite (Hl a (or_introl eq_refl)). apply IH. intros y Hy. apply Hl. now right.
Qed.

(** * Device registry *)

(** C8: the lookup used by both tool branches returns the first device, in
    registry order, whose name contains the query ignoring case; it returns
    nothing exactly when no name contains the query.  The result is
    therefore determined by the order of the registry. *)
Theorem findDevice_first_in_registry_order `{Runtime} (q : string) (D : list Device) :
  (forall d, findDevice q D = Some d <->
     exists before after, D = (before ++ d :: after)%list /\
       containsIgnoringCase q (name d) /\
       forall x, In x before -> ~ containsIgnoringCase q (name x)) /\
  (findDevice q D = None <->
     forall d, In d D -> ~ containsIgnoringCase q (name d)).
Proof.
  unfold findDevice. split.
  - intros d. rewrite find_first. split.
    + intros [before [after [E [M Hb]]]]. exists before, after.
      repeat split; [exact E | now apply matchesName_iff |].
      intros x Hx C. apply matchesName_iff in C. rewrite (Hb x Hx) in C. discriminate.
    + intros [before [after [E [M Hb]]]]. exists before, after.
      repeat split; [exact E | now apply matchesName_iff |].
      intros y Hy. destruct (matchesName q y) eqn:My; [|reflexivity].
      exfalso. apply (Hb y Hy). now apply matchesName_iff.
  - rewrite find_none_iff. split; intros Hall d Hd.
    + intros C. apply matchesName_iff in C. rewrite (Hall d Hd) in C. discriminate.
    + destruct (matchesName q d) eqn:Md; [|reflexivity].
      exfalso. apply (Hall d Hd). now apply matchesName_iff.
Qed.

(** "sala" picks the living-room light; "LUZ" matches three devices and
    picks the first of them; "tv" finds the Smart TV; nothing is called
    "inexistente". *)
Example findDevice_on_initial_registry :
  option_map id (@findDevice asciiRuntime "sala" INITIAL_DEVICES) = Some "1" /\
  option_map id (@findDevice asciiRuntime "LUZ" INITIAL_DEVICES) = Some "1" /\
  option_map id (@findDevice asciiRuntime "tv" INITIAL_DEVICES) = Some "5" /\
  @findDevice asciiRuntime "inexistente" INITIAL_DEVICES = None.
Proof. repeat split; reflexivity. Qed.

Lemma nth_error_map_some {A B} (f : A -> B) (l : list A) (i : nat) (a : A) :
  nth_error l i = Some a -> nth_error (map f l) i = Some (f a).
Proof. intros E. rewrite nth_error_map, E. reflexivity. Qed.

(** C9: both mutations keep the length and the order of the registry and
    never touch [id], [name], [type] or [room].  [toggleDevice] changes only
    [isOn] of the devices carrying the target id, [changeDeviceValue] only
    their [value], which becomes the argument as passed (no clamping); every
    device with another id is returned as it was. *)
Theorem registry_mutations_frame (target : string) (v : option Q) (prev : list Device) :
  List.length (toggleDevice target prev) = List.length prev /\
  List.length (changeDeviceValue target v prev) = List.length prev /\
  forall i d, nth_error prev i = Some d ->
    exists dt dv,
      nth_error (toggleDevice target prev) i = Some dt /\
      nth_error (changeDeviceValue target v prev) i = Some dv /\
      (id dt = id d /\ name dt = name d /\ type dt = type d /\
         room dt = room d /\ value dt = value d) /\
      (id dv = id d /\ name dv = name d /\ type dv = type d /\
         room dv = room d /\ isOn dv = isOn d) /\
      (id d = target -> isOn dt = negb (isOn d) /\ value dv = v) /\
      (id d <> target -> dt = d /\ dv = d).
Proof.
  unfold toggleDevice, changeDeviceValue.
  repeat split; try apply length_map.
  intros i d Hd.
  eexists; eexists.
  split; [apply nth_error_map_some; exact Hd|].
  split; [apply nth_error_map_some; exact Hd|].
  destruct (String.eqb_spec (id d) target) as [E|N]; simpl;
    repeat split; auto; intros; congruence.
Qed.

(** * Tool dispatcher *)

Ltac handleCall_branches fc current :=
  unfold handleCall, findTarget;
  destruct (String.eqb (FunctionCall.name fc) "controlDevice");
    [|destruct (String.eqb (FunctionCall.name fc) "setDeviceValue")];
    try (destruct (Args.deviceName (FunctionCall.args fc));
         [try destruct (findDevice _ current) | destruct current]).

(** A call either throws whatever the device list is, or returns an
    update of the list together with an entry that does not depend on the
    list. *)
Lemma handleCall_plan `{Runtime} (current : list Device) (fc : FunctionCall.t) :
  (forall devs, handleCall current fc devs = TypeError) \/
  exists f r, forall devs, handleCall current fc devs = Returned (f devs, r).
Proof.
  unfold handleCall, findTarget.
  destruct (String.eqb (FunctionCall.name fc) "controlDevice");
    [|destruct (String.eqb (FunctionCall.name fc) "setDeviceValue")].
  - destruct (Args.deviceName (FunctionCall.args fc)) as [q|].
    + destruct (findDevice q current) as [t|].
      * right. exists (toggleDevice (id t)). eexists. intros devs. reflexivity.
      * right. exists (fun devs => devs). eexists. intros devs. reflexivity.
    + destruct current.
      * right. exists (fun devs => devs). eexists. intros devs. reflexivity.
      * left. reflexivity.
  - destruct (Args.deviceName (FunctionCall.args fc)) as [q|].
    + destruct (findDevice q current) as [t|].
      * right. exists (changeDeviceValue (id t) (Args.value (FunctionCall.args fc))).
        eexists. intros devs. reflexivity.
      * right. exists (fun devs => devs). eexists. intros devs. reflexivity.
    + destruct current.
      * right. exists (fun devs => devs). eexists. intros devs. reflexivity.
      * left. reflexivity.
  - right. exists (fun devs => devs). eexists. intros devs. reflexivity.
Qed.

Lemma handleCall_wellFormed `{Runtime} (current : list Device) (fc : FunctionCall.t)
    (devs : list Device) :
  wellFormed fc = true -> handleCall current fc devs <> TypeError.
Proof.
  unfold wellFormed, readsDeviceName, handleCall, findTarget.
  destruct (String.eqb (FunctionCall.name fc) "controlDevice");
    [|destruct (String.eqb (FunctionCall.name fc) "setDeviceValue")]; simpl;
    try discriminate;
    (destruct (Args.deviceName (FunctionCall.args fc)); [|discriminate]);
    intros _; destruct (findDevice _ current); discriminate.
Qed.

Lemma answers_entry `{Runtime} (current : list Device) (fc : FunctionCall.t)
    (r : FunctionResponse.t) :
  answers current fc r ->
  FunctionResponse.id r = FunctionCall.id fc /\
  FunctionResponse.name r = FunctionCall.name fc /\
  (FunctionCall.name fc <> "controlDevice" ->
   FunctionCall.name fc <> "setDeviceValue" ->
   FunctionResponse.result r = ToolResult.mk "error" "Unknown device") /\
  (findTarget (Args.deviceName (FunctionCall.args fc)) current = Returned None ->
   FunctionResponse.result r = ToolResult.mk "error" "Unknown device").
Proof.
  intros [devs [devs' Hcall]]. revert Hcall.
  unfold handleCall, findTarget.
  destruct (String.eqb_spec (FunctionCall.name fc) "controlDevice") as [E1|N1];
    [|destruct (String.eqb_spec (FunctionCall.name fc) "setDeviceValue") as [E2|N2]];
    try (destruct (Args.deviceName (FunctionCall.args fc));
         [destruct (findDevice _ current) | destruct current]);
    intros Hcall; try discriminate; injection Hcall as _ <-; simpl;
    repeat split; try reflexivity; try congruence; intros; congruence.
Qed.

(** On calls that carry what their branch reads the loop runs to its end
    and pushes the entry of each call, in order. *)
Lemma toolLoop_wellFormed `{Runtime} (current : list Device)
    (calls : list FunctionCall.t) (devs : list Device)
    (acc : list FunctionResponse.t) :
  Forall (fun fc => wellFormed fc = true) calls ->
  exists rs,
    snd (toolLoop current calls devs acc) = Returned (acc ++ rs)%list /\
    Forall2 (answers current) calls rs.
Proof.
  intros Hwf. revert devs acc.
  induction Hwf as [|fc rest Hfc Hrest IH]; intros devs acc; simpl.
  - exists []. rewrite app_nil_r. split; [reflexivity | constructor].
  - destruct (handleCall current fc devs) as [[devs' r]|] eqn:E.
    + destruct (IH devs' (acc ++ [r])%list) as [rs [Hrs Hall]].
      exists (r :: rs). rewrite Hrs, <- app_assoc. split; [reflexivity|].
      constructor; [now exists devs, devs' | exact Hall].
    + now apply handleCall_wellFormed in E.
Qed.

Lemma Forall2_nth_error {A B} (R : A -> B -> Prop) (l : list A) (l' : list B) :
  Forall2 R l l' ->
  forall i a, nth_error l i = Some a -> exists b, nth_error l' i = Some b /\ R a b.
Proof.
  induction 1 as [|x y l l' Hxy Hrest IH]; intros [|i] a Ha; simpl in *; try discriminate.
  - injection Ha as <-. now exists y.
  - now apply IH.
Qed.

Lemma Forall2_map_eq {A B C} (R : A -> B -> Prop) (f : A -> C) (g : B -> C)
    (l : list A) (l' : list B) :
  (forall a b, R a b -> g b = f a) -> Forall2 R l l' -> map g l' = map f l.
Proof.
  intros Hfg. induction 1 as [|x y l l' Hxy Hrest IH]; simpl; [reflexivity|].
  now rewrite IH, (Hfg x y Hxy).
Qed.

(** C10 as stated fails: a [controlDevice] call that carries no device
    name makes the lookup throw on the first device.  The loop stops
    there: no entry exists for that call nor for the call of an unknown
    function before it, and nothing is sent. *)
Lemma call_without_device_name_gets_no_result :
  let calls := [FunctionCall.mk "getWeather" (Args.mk None None None) "call-1";
                FunctionCall.mk "controlDevice" (Args.mk None (Some "turnOn") None) "call-2"] in
  snd (@toolLoop asciiRuntime INITIAL_DEVICES calls INITIAL_DEVICES []) = TypeError /\
  outbox (world (@onmessage asciiRuntime (mkMessage None (Some calls)) 0%Q initialApp)) = [].
Proof. split; reflexivity. Qed.

(** C10, amended: when every [controlDevice] and [setDeviceValue] call of
    the message carries a string device name, the loop builds one entry
    per call, in order, each carrying the id and the name of its call.  The
    entry keeps the default result
    [{status: 'error', message: 'Unknown device'}] when the name is neither
    [controlDevice] nor [setDeviceValue] (such a call needs no device
    name), and also when the lookup finds no device; so the array is as
    long as the list of calls. *)
Theorem every_well_formed_call_gets_one_result `{Runtime} (current : list Device)
    (calls : list FunctionCall.t) (devs : list Device) :
  Forall (fun fc => wellFormed fc = true) calls ->
  exists functionResponses,
    snd (toolLoop current calls devs []) = Returned functionResponses /\
    List.length functionResponses = List.length calls /\
    forall i fc, nth_error calls i = Some fc ->
      exists r, nth_error functionResponses i = Some r /\
        FunctionResponse.id r = FunctionCall.id fc /\
        FunctionResponse.name r = FunctionCall.name fc /\
        (FunctionCall.name fc <> "controlDevice" ->
         FunctionCall.name fc <> "setDeviceValue" ->
         FunctionResponse.result r = ToolResult.mk "error" "Unknown device") /\
        (findTarget (Args.deviceName (FunctionCall.args fc)) current = Returned None ->
         FunctionResponse.result r = ToolResult.mk "error" "Unknown device").
Proof.
  intros Hwf.
  destruct (toolLoop_wellFormed current devs [] Hwf) as [rs [Hrs Hall]].
  exists rs. split; [exact Hrs|].
  split; [symmetry; eapply Forall2_length; exact Hall|].
  intros i fc Hfc.
  destruct (Forall2_nth_error Hall i Hfc) as [r [Hr Hans]].
  exists r. split; [exact Hr|]. now apply answers_entry.
Qed.

(** The amended C10 on a message with a resolved call, an unresolved call
    and a call of an unknown function that carries no arguments. *)
Lemma every_well_formed_call_gets_one_result_witness :
  exists functionResponses,
    snd (@toolLoop asciiRuntime INITIAL_DEVICES
           [FunctionCall.mk "controlDevice" (Args.mk (Some "sala") (Some "turnOn") None) "call-1";
            FunctionCall.mk "setDeviceValue" (Args.mk (Some "garagem") None (Some 5%Q)) "call-2";
            FunctionCall.mk "getWeather" (Args.mk None None None) "call-3"]
           INITIAL_DEVICES []) = Returned functionResponses /\
    List.length functionResponses = 3%nat /\
    map FunctionResponse.id functionResponses = ["call-1"; "call-2"; "call-3"].
Proof.
  destruct (@every_well_formed_call_gets_one_result asciiRuntime INITIAL_DEVICES
              [FunctionCall.mk "controlDevice" (Args.mk (Some "sala") (Some "turnOn") None) "call-1";
               FunctionCall.mk "setDeviceValue" (Args.mk (Some "garagem") None (Some 5%Q)) "call-2";
               FunctionCall.mk "getWeather" (Args.mk None None None) "call-3"]
              INITIAL_DEVICES) as [rs [Hrs [Hlen _]]].
  { repeat constructor. }
  exists rs. split; [exact Hrs|]. split; [exact Hlen|].
  vm_compute in Hrs. injection Hrs as <-. reflexivity.
Defined.

Lemma playAudioBuffer_outbox (ctxTime : Q) (buffer : AudioBuffer) (s : App) :
  outbox (world (playAudioBuffer ctxTime buffer s)) = outbox (world s) /\
  devices (playAudioBuffer ctxTime buffer s) = devices s /\
  devicesRef (playAudioBuffer ctxTime buffer s) = devicesRef s.
Proof. unfold playAudioBuffer. destruct (audioContextRef s); auto. Qed.

(** The audio part of [onmessage] sends nothing. *)
Lemma onmessage_audio_outbox `{Runtime} (audio : option string) (ctxTime : Q) (s : App) :
  outbox (world (match audio with
                 | Some data =>
                     match audioContextRef s with
                     | Some _ => if String.eqb data "" then s
                                 else playAudioBuffer ctxTime (decodeAudioData data) s
                     | None => s
                     end
                 | None => s
                 end)) = outbox (world s).
Proof.
  destruct audio as [data|]; [|reflexivity].
  destruct (audioContextRef s); [|reflexivity].
  destruct (String.eqb data ""); [reflexivity | apply playAudioBuffer_outbox].
Qed.

(** C6 as stated fails: the message carries two calls, the second a
    [setDeviceValue] without a device name.  The first call is applied
    (the living-room light is toggled), the second throws, and no tool
    response is sent for the message. *)
Lemma message_with_a_nameless_call_gets_no_response :
  let calls := [FunctionCall.mk "controlDevice" (Args.mk (Some "sala") (Some "turnOn") None) "call-1";
                FunctionCall.mk "setDeviceValue" (Args.mk None None (Some 50%Q)) "call-2"] in
  let s := @onmessage asciiRuntime (mkMessage None (Some calls)) 0%Q initialApp in
  powerOf "1" (devices initialApp) = [false] /\
  powerOf "1" (devices s) = [true] /\
  ~ exists functionResponses,
      outbox (world s) =
        (outbox (world initialApp) ++ [ToolResponse functionResponses])%list.
Proof.
  cbv zeta. split; [reflexivity|]. split; [reflexivity|].
  intros [rs Hrs]. vm_compute in Hrs. discriminate.
Qed.

(** C6, amended: a message whose [controlDevice] and [setDeviceValue]
    calls all carry a string device name makes the handler send exactly
    one tool response; its entries are as many as the calls and carry
    their ids and names in the order of the calls.  A message without a
    tool call sends nothing. *)
Theorem one_tool_response_per_well_formed_message `{Runtime} (audio : option string)
    (calls : list FunctionCall.t) (ctxTime : Q) (s : App) :
  Forall (fun fc => wellFormed fc = true) calls ->
  (exists functionResponses,
     outbox (world (onmessage (mkMessage audio (Some calls)) ctxTime s)) =
       (outbox (world s) ++ [ToolResponse functionResponses])%list /\
     List.length functionResponses = List.length calls /\
     map FunctionResponse.id functionResponses = map FunctionCall.id calls /\
     map FunctionResponse.name functionResponses = map FunctionCall.name calls) /\
  outbox (world (onmessage (mkMessage audio None) ctxTime s)) = outbox (world s).
Proof.
  intros Hwf. unfold onmessage; simpl.
  pose proof (onmessage_audio_outbox audio ctxTime s) as Hs1.
  set (s1 := match audio with
             | Some data =>
                 match audioContextRef s with
                 | Some _ => if String.eqb data "" then s
                             else playAudioBuffer ctxTime (decodeAudioData data) s
                 | None => s
                 end
             | None => s
             end) in *.
  split; [|exact Hs1].
  destruct (toolLoop_wellFormed (devicesRef s1) (devices s1) [] Hwf) as [rs [Hrs Hall]].
  destruct (toolLoop (devicesRef s1) calls (devices s1) []) as [devs outcome].
  simpl in Hrs. subst outcome.
  exists rs. simpl. rewrite Hs1. split; [reflexivity|].
  split; [symmetry; eapply Forall2_length; exact Hall|].
  split; eapply Forall2_map_eq; try exact Hall; intros fc r Hans;
    now apply answers_entry in Hans.
Qed.

(** The amended C6 on a message with two calls for the initial registry. *)
Lemma one_tool_response_per_well_formed_message_witness :
  let calls := [FunctionCall.mk "controlDevice" (Args.mk (Some "tv") (Some "turnOn") None) "call-1";
                FunctionCall.mk "setDeviceValue" (Args.mk (Some "persiana") None (Some 30%Q)) "call-2"] in
  exists functionResponses,
    outbox (world (@onmessage asciiRuntime (mkMessage None (Some calls)) 0%Q initialApp)) =
      (outbox (world initialApp) ++ [ToolResponse functionResponses])%list /\
    List.length functionResponses = List.length calls /\
    map FunctionResponse.id functionResponses = map FunctionCall.id calls /\
    map FunctionResponse.name functionResponses = map FunctionCall.name calls.
Proof.
  cbv zeta.
  apply (@one_tool_response_per_well_formed_message asciiRuntime None
           [FunctionCall.mk "controlDevice" (Args.mk (Some "tv") (Some "turnOn") None) "call-1";
            FunctionCall.mk "setDeviceValue" (Args.mk (Some "persiana") None (Some 30%Q)) "call-2"]
           0%Q initialApp).
  repeat constructor.
Defined.

(** C2 as stated fails on the message text: the scenario of the
    specification, [setDeviceValue("inexistente", 50)] on the initial
    registry, resolves to no device and is answered with the default
    result, whose message is not "device not found". *)
Lemma unresolved_device_message_is_not_device_not_found :
  let fc := FunctionCall.mk "setDeviceValue"
              (Args.mk (Some "inexistente") None (Some 50%Q)) "call-1" in
  @findTarget asciiRuntime (Args.deviceName (FunctionCall.args fc)) INITIAL_DEVICES =
    Returned None /\
  exists devs r,
    @handleCall asciiRuntime INITIAL_DEVICES fc INITIAL_DEVICES = Returned (devs, r) /\
    ToolResult.status (FunctionResponse.result r) = "error" /\
    ToolResult.message (FunctionResponse.result r) <> "device not found".
Proof.
  cbv zeta. split; [reflexivity|].
  eexists. eexists. split; [reflexivity|]. split; [reflexivity | discriminate].
Qed.

(** C2, amended: a [controlDevice] or [setDeviceValue] call whose device
    name resolves to no device is answered with status "error" and message
    "Unknown device", under the id and name of the call, and the device
    list comes back unchanged. *)
Theorem unresolved_device_reports_unknown_device `{Runtime} (current : list Device)
    (fc : FunctionCall.t) (devs : list Device) :
  FunctionCall.name fc = "controlDevice" \/ FunctionCall.name fc = "setDeviceValue" ->
  findTarget (Args.deviceName (FunctionCall.args fc)) current = Returned None ->
  handleCall current fc devs =
    Returned (devs, FunctionResponse.mk (FunctionCall.id fc) (FunctionCall.name fc)
                      (ToolResult.mk "error" "Unknown device")).
Proof.
  intros Hname Hnone. unfold handleCall. rewrite Hnone.
  destruct Hname as [-> | ->]; reflexivity.
Qed.

(** The amended C2 on the scenario of the specification. *)
Lemma unresolved_device_reports_unknown_device_witness :
  @handleCall asciiRuntime INITIAL_DEVICES
    (FunctionCall.mk "setDeviceValue" (Args.mk (Some "inexistente") None (Some 50%Q)) "call-1")
    INITIAL_DEVICES =
  Returned
    (INITIAL_DEVICES,
     FunctionResponse.mk "call-1" "setDeviceValue" (ToolResult.mk "error" "Unknown device")).
Proof.
  apply (@unresolved_device_reports_unknown_device asciiRuntime INITIAL_DEVICES
           (FunctionCall.mk "setDeviceValue" (Args.mk (Some "inexistente") None (Some 50%Q)) "call-1")
           INITIAL_DEVICES).
  - right. reflexivity.
  - reflexivity.
Defined.

(** The scenario of the specification: with the living-room light off,
    [controlDevice("sala", "turnOn")] switches it on and says so. *)
Example controlDevice_sala_turnOn :
  let registry := [mkDevice "1" "Luz da Sala" DeviceType.LIGHT false (Some 80%Q) "Sala de Estar"] in
  @handleCall asciiRuntime registry
    (FunctionCall.mk "controlDevice" (Args.mk (Some "sala") (Some "turnOn") None) "call-1")
    registry =
  Returned
    ([mkDevice "1" "Luz da Sala" DeviceType.LIGHT true (Some 80%Q) "Sala de Estar"],
     FunctionResponse.mk "call-1" "controlDevice"
       (ToolResult.mk "ok" "Luz da Sala agora está ligado")).
Proof. reflexivity. Qed.

(** A resolved [controlDevice] call flips the power of the target whatever
    the requested action is; the action only selects the wording of the
    message. *)
Lemma controlDevice_flips_power `{Runtime} (current : list Device)
    (fc : FunctionCall.t) (devs : list Device) (target : Device) :
  FunctionCall.name fc = "controlDevice" ->
  findTarget (Args.deviceName (FunctionCall.args fc)) current = Returned (Some target) ->
  exists r, handleCall current fc devs = Returned (toggleDevice (id target) devs, r).
Proof.
  intros Hname Hfound. unfold handleCall. rewrite Hname, Hfound. simpl.
  eexists. reflexivity.
Qed.

(** C1, evaluated on the code: on the initial registry the air conditioner
    (id 2) is on; a [controlDevice] call with action [turnOn] resolves to
    it, switches it off and reports "ligado".  Repeating a [turnOn] call
    for the living-room light (id 1) in a second message leaves it off
    again, where one call had left it on. *)
Theorem controlDevice_turnOn_toggles_instead_of_setting :
  let turnOn := fun deviceName =>
    Message (mkMessage None (Some [FunctionCall.mk "controlDevice"
               (Args.mk (Some deviceName) (Some "turnOn") None) "call-1"])) 0%Q in
  (exists s, @run asciiRuntime [turnOn "Ar Condicionado"] initialApp = Some s /\
     powerOf "2" (devices initialApp) = [true] /\
     powerOf "2" (devices s) = [false] /\
     outbox (world s) =
       [ToolResponse [FunctionResponse.mk "call-1" "controlDevice"
          (ToolResult.mk "ok" "Ar Condicionado agora está ligado")]]) /\
  (exists once twice,
     @run asciiRuntime [turnOn "Luz da Sala"; Commit] initialApp = Some once /\
     @run asciiRuntime [turnOn "Luz da Sala"; Commit; turnOn "Luz da Sala"; Commit]
       initialApp = Some twice /\
     powerOf "1" (devices once) = [true] /\
     powerOf "1" (devices twice) = [false]).
Proof.
  cbv zeta. split.
  - eexists. split; [reflexivity|]. repeat split; reflexivity.
  - eexists. eexists. split; [reflexivity|]. split; [reflexivity|].
    split; reflexivity.
Qed.

(** * Playback scheduler *)

Lemma Qmax_first (a b : Q) : (b <= a)%Q -> Qmax a b = a.
Proof.
  intros Hle. unfold Qmax, GenericMinMax.gmax.
  destruct (a ?= b)%Q eqn:E; try reflexivity.
  apply Qlt_alt in E. lra.
Qed.

Lemma Qmax_second (a b : Q) : (a < b)%Q -> Qmax a b = b.
Proof.
  intros Hlt. unfold Qmax, GenericMinMax.gmax.
  destruct (a ?= b)%Q eqn:E; try reflexivity.
  - apply Qeq_alt in E. lra.
  - apply Qgt_alt in E. lra.
Qed.

(** One scheduling step, when an output context is held. *)
Lemma playAudioBuffer_step (ctxTime : Q) (buffer : AudioBuffer) (s : App) :
  audioContextRef s <> None ->
  let startAt := Qmax ctxTime (nextStartTimeRef s) in
  scheduled (world (playAudioBuffer ctxTime buffer s)) =
    (scheduled (world s) ++ [(startAt, buffer)])%list /\
  nextStartTimeRef (playAudioBuffer ctxTime buffer s) = (startAt + duration buffer)%Q /\
  audioContextRef (playAudioBuffer ctxTime buffer s) = audioContextRef s.
Proof.
  intros Hctx. unfold playAudioBuffer.
  destruct (audioContextRef s) eqn:E; [|congruence].
  simpl. rewrite E. repeat split; reflexivity.
Qed.

(** C5: while an output context is held and the cursor is not ahead of the
    clock (as after a connection, where it is 0), three buffers of
    durations d1, d2, d3 handed to the scheduler at clock readings
    t1 <= t2 <= t3 < t1 + d1 are started at exactly t1, t1 + d1 and
    t1 + d1 + d2, and the cursor ends at t1 + d1 + d2 + d3: each buffer
    starts where the previous one ends. *)
Theorem three_buffers_play_back_to_back (s : App) (b1 b2 b3 : AudioBuffer)
    (t1 t2 t3 : Q) :
  audioContextRef s <> None ->
  (nextStartTimeRef s <= t1)%Q ->
  (t1 <= t2)%Q -> (t2 <= t3)%Q -> (t3 < t1 + duration b1)%Q ->
  (0 <= duration b2)%Q ->
  let s3 := playAudioBuffer t3 b3 (playAudioBuffer t2 b2 (playAudioBuffer t1 b1 s)) in
  scheduled (world s3) =
    (scheduled (world s) ++
       [(t1, b1);
        ((t1 + duration b1)%Q, b2);
        ((t1 + duration b1 + duration b2)%Q, b3)])%list /\
  nextStartTimeRef s3 = (t1 + duration b1 + duration b2 + duration b3)%Q.
Proof.
  intros Hctx Hcur H12 H23 H3 Hd2. cbv zeta.
  destruct (playAudioBuffer_step t1 b1 s Hctx) as [S1 [N1 C1]].
  rewrite (Qmax_first Hcur) in S1, N1.
  set (s1 := playAudioBuffer t1 b1 s) in *.
  assert (Hctx1 : audioContextRef s1 <> None) by congruence.
  destruct (playAudioBuffer_step t2 b2 s1 Hctx1) as [S2 [N2 C2]].
  rewrite N1, Qmax_second in S2, N2 by lra.
  set (s2 := playAudioBuffer t2 b2 s1) in *.
  assert (Hctx2 : audioContextRef s2 <> None) by congruence.
  destruct (playAudioBuffer_step t3 b3 s2 Hctx2) as [S3 [N3 C3]].
  rewrite N2, Qmax_second in S3, N3 by lra.
  split; [|exact N3].
  rewrite S3, S2, S1, <- !app_assoc. reflexivity.
Qed.

(** C5 on a fresh connection: three half-second buffers handed over at
    1, 1.1 and 1.3 seconds. *)
Lemma three_buffers_play_back_to_back_witness :
  let s := connectToGemini initialApp in
  let b := mkAudioBuffer (1 # 2) in
  let s3 := playAudioBuffer (13 # 10) b (playAudioBuffer (11 # 10) b (playAudioBuffer 1 b s)) in
  scheduled (world s3) =
    (scheduled (world s) ++
       [(1%Q, b); ((1 + duration b)%Q, b); ((1 + duration b + duration b)%Q, b)])%list /\
  nextStartTimeRef s3 = (1 + duration b + duration b + duration b)%Q.
Proof.
  cbv zeta.
  apply (@three_buffers_play_back_to_back (connectToGemini initialApp)
           (mkAudioBuffer (1 # 2)) (mkAudioBuffer (1 # 2)) (mkAudioBuffer (1 # 2))
           1%Q (11 # 10)%Q (13 # 10)%Q); simpl; try discriminate; try lra.
Defined.

(** * Session lifecycle *)

Lemma remove_handle_not_in (h : nat) (l : list nat) : ~ In h (remove_handle h l).
Proof.
  unfold remove_handle. intros Hin. apply filter_In in Hin as [_ Hne].
  rewrite Nat.eqb_refl in Hne. discriminate.
Qed.

Lemma disconnect_released (s : App) : released (disconnect s).
Proof.
  unfold released, disconnect.
  destruct s as [? ? ? ? [c|] [i|] [p|] ? ? ? ?]; simpl; repeat split; reflexivity.
Qed.

Lemma disconnect_when_released (s : App) : released s -> disconnect s = s.
Proof.
  destruct s. unfold released, disconnect. simpl.
  intros [-> [-> [-> [-> [-> [-> [-> ->]]]]]]]. reflexivity.
Qed.

(** C7: when [disconnect] returns, the processor and the input source that
    were held are unwired, the output context that was held is closed, all
    three refs and the session ref are cleared and the cursor is 0.
    Calling it on a component that holds nothing (Idle, or Closed by an
    earlier call) changes nothing at all; in particular a second call is
    a no-op. *)
Theorem disconnect_releases_and_is_idempotent (s : App) :
  released (disconnect s) /\
  (forall p, processorRef s = Some p ->
     ~ In p (liveProcessors (world (disconnect s)))) /\
  (forall i, inputSourceRef s = Some i ->
     ~ In i (liveSources (world (disconnect s)))) /\
  (forall c, audioContextRef s = Some c ->
     ~ In c (openContexts (world (disconnect s)))) /\
  disconnect (disconnect s) = disconnect s /\
  disconnect initialApp = initialApp /\
  (released s -> disconnect s = s).
Proof.
  split; [apply disconnect_released|].
  split; [|split; [|split]].
  - intros p Hp. unfold disconnect.
    destruct s as [? ? ? ? [c|] [i|] pr ? ? ? ?]; simpl in *; subst pr; simpl;
      apply remove_handle_not_in.
  - intros i Hi. unfold disconnect.
    destruct s as [? ? ? ? [c|] ir [p|] ? ? ? ?]; simpl in *; subst ir; simpl;
      apply remove_handle_not_in.
  - intros c Hc. unfold disconnect.
    destruct s as [? ? ? ? cr [i|] [p|] ? ? ? ?]; simpl in *; subst cr; simpl;
      apply remove_handle_not_in.
  - split; [apply disconnect_when_released, disconnect_released|].
    split; [reflexivity | apply disconnect_when_released].
Qed.

(** The teardown paths next to the microphone one do close the session:
    after [onerror] and after the [catch] of [connectToGemini] nothing is
    held. *)
Lemma sibling_failures_close_the_session (s : App) :
  released (onerror s) /\ released (connectCatch s).
Proof. split; apply disconnect_released. Qed.

(** C4, evaluated on the code: connect, let the handshake open, deny the
    microphone.  The failure is written to the console and nothing else
    happens: the component still shows itself connected with the status
    "Ouvindo... Pode falar.", it is not torn down, and no frame can be
    emitted because no processor was created.  In any state the [catch]
    leaves the flags and the status as they were. *)
Theorem microphone_denied_is_only_logged :
  (exists s, @run asciiRuntime [Click; Open; MicDenied] initialApp = Some s /\
     console (world s) = ["Mic error"] /\
     isLiveConnected s = true /\
     statusMessage s = "Ouvindo... Pode falar." /\
     ~ released s /\
     liveProcessors (world s) = [] /\
     outbox (world s) = [] /\
     forall p inputData, @step asciiRuntime (AudioProcess p inputData) s = None) /\
  (forall s, isLiveConnected (microphoneDenied s) = isLiveConnected s /\
     statusMessage (microphoneDenied s) = statusMessage s /\
     audioContextRef (microphoneDenied s) = audioContextRef s /\
     sessionRef (microphoneDenied s) = sessionRef s).
Proof.
  split.
  - eexists. split; [reflexivity|]. simpl.
    repeat split; try reflexivity.
    intros [Hlive _]. discriminate.
  - intros s. repeat split; reflexivity.
Qed.

Lemma onmessage_without_context `{Runtime} (msg : LiveServerMessage) (ctxTime : Q)
    (s : App) :
  audioContextRef s = None ->
  nextStartTimeRef (onmessage msg ctxTime s) = nextStartTimeRef s /\
  scheduled (world (onmessage msg ctxTime s)) = scheduled (world s) /\
  audioContextRef (onmessage msg ctxTime s) = None.
Proof.
  intros Hctx. unfold onmessage. rewrite Hctx.
  replace (match audioData msg with Some _ => s | None => s end) with s
    by (destruct (audioData msg); reflexivity).
  destruct (toolCall msg) as [calls|].
  - destruct (toolLoop (devicesRef s) calls (devices s) []) as [devs [rs|]];
      simpl; auto.
  - auto.
Qed.

(** C3 as stated fails.  Two presses of the button start two handshakes;
    the first opens and its microphone is granted; a third press
    disconnects while the second handshake is still pending.  When that
    handshake opens and the microphone is granted, a source and a
    processor are created, wired and stored in the refs, and the component
    shows an active stream. *)
Lemma stale_handshake_acquires_capture_resources :
  exists torn s,
    @run asciiRuntime [Click; Click; Open; MicGranted; Click] initialApp = Some torn /\
    released torn /\ pendingHandshakes (world torn) = 1%nat /\
    @run asciiRuntime [Open; MicGranted] torn = Some s /\
    ~ (processorRef s = None /\ inputSourceRef s = None /\
       liveProcessors (world s) = [] /\ liveSources (world s) = [] /\
       isAudioStreamActive s = false).
Proof.
  match eval vm_compute in
    (@run asciiRuntime [Click; Click; Open; MicGranted; Click] initialApp) with
  | Some ?t =>
      exists t;
      match eval vm_compute in (@run asciiRuntime [Open; MicGranted] t) with
      | Some ?u => exists u
      end
  end.
  split; [vm_compute; reflexivity|].
  split; [repeat split|].
  split; [reflexivity|].
  split; [vm_compute; reflexivity|].
  intros [Hp _]. discriminate.
Qed.

(** C3, amended: a [disconnect] issued while a handshake is pending closes
    the output context and leaves the cursor at 0, and neither is acquired
    or moved again when the handshake resolves: inbound audio is skipped
    while no context is held.  The callbacks of the stale attempt still
    run, though: [onopen] marks the component connected and requests the
    microphone, and once it is granted the capture pipeline is started,
    with a source and a processor wired and stored in the refs. *)
Theorem stale_handshake_starts_capture_but_not_playback `{Runtime} (s : App) :
  (0 < pendingHandshakes (world s))%nat ->
  released (disconnect s) /\
  exists opened started,
    step Open (disconnect s) = Some opened /\
    step MicGranted opened = Some started /\
    isLiveConnected opened = true /\
    isLiveConnected started = true /\
    isAudioStreamActive started = true /\
    (exists source processor,
       inputSourceRef started = Some source /\
       processorRef started = Some processor /\
       In source (liveSources (world started)) /\
       In processor (liveProcessors (world started))) /\
    audioContextRef started = None /\
    nextStartTimeRef started = 0%Q /\
    forall msg ctxTime,
      nextStartTimeRef (onmessage msg ctxTime started) = 0%Q /\
      scheduled (world (onmessage msg ctxTime started)) = scheduled (world started) /\
      audioContextRef (onmessage msg ctxTime started) = None.
Proof.
  intros Hpending. split; [apply disconnect_released|].
  destruct (disconnect_released s) as [_ [_ [_ [_ [_ [Hctx [_ Hcur]]]]]]].
  assert (Hw : pendingHandshakes (world (disconnect s)) = pendingHandshakes (world s)).
  { unfold disconnect.
    destruct s as [? ? ? ? [c|] [i|] [p|] ? ? ? ?]; reflexivity. }
  destruct (pendingHandshakes (world s)) as [|n] eqn:En; [lia|].
  set (closed := disconnect s) in *.
  exists (onopen (inWorld (with_pendingHandshakes n) closed)).
  exists (microphoneGranted
            (inWorld (with_pendingMicRequests (pendingMicRequests (world closed)))
               (onopen (inWorld (with_pendingHandshakes n) closed)))).
  split; [unfold step; rewrite Hw; reflexivity|].
  clearbody closed. destruct closed as [? ? ? ? ? ? ? ? ? ? w]. destruct w.
  simpl in Hctx, Hcur. subst.
  split; [reflexivity|].
  split; [reflexivity|]. split; [reflexivity|]. split; [reflexivity|].
  split.
  { eexists. eexists. split; [reflexivity|]. split; [reflexivity|].
    split; simpl; apply in_or_app; right; left; reflexivity. }
  split; [reflexivity|]. split; [reflexivity|].
  intros msg ctxTime.
  match goal with |- context [onmessage msg ctxTime ?st] =>
    destruct (@onmessage_without_context _ msg ctxTime st eq_refl) as [A [B C]]
  end.
  rewrite A. repeat split; assumption.
Qed.

(** The amended C3 for a disconnect issued right after the first press of
    the button. *)
Lemma stale_handshake_starts_capture_but_not_playback_witness :
  released (disconnect (connectToGemini initialApp)) /\
  exists opened started,
    @step asciiRuntime Open (disconnect (connectToGemini initialApp)) = Some opened /\
    @step asciiRuntime MicGranted opened = Some started /\
    isLiveConnected opened = true /\
    isLiveConnected started = true /\
    isAudioStreamActive started = true /\
    (exists source processor,
       inputSourceRef started = Some source /\
       processorRef started = Some processor /\
       In source (liveSources (world started)) /\
       In processor (liveProcessors (world started))) /\
    audioContextRef started = None /\
    nextStartTimeRef started = 0%Q /\
    forall msg ctxTime,
      nextStartTimeRef (@onmessage asciiRuntime msg ctxTime started) = 0%Q /\
      scheduled (world (@onmessage asciiRuntime msg ctxTime started)) =
        scheduled (world started) /\
      audioContextRef (@onmessage asciiRuntime msg ctxTime started) = None.
Proof.
  apply (@stale_handshake_starts_capture_but_not_playback asciiRuntime
           (connectToGemini initialApp)).
  simpl. lia.
Defined.

(** * Registry updates: how they compose *)

Lemma flipPower_twice (d : Device) : flipPower (flipPower d) = d.
Proof. destruct d. unfold flipPower. simpl. now rewrite negb_involutive. Qed.

Lemma map_same {A} (f : A -> A) (l : list A) :
  (forall a, f a = a) -> map f l = l.
Proof. intros Hf. rewrite <- (map_id l) at 2. apply map_ext. exact Hf. Qed.

(** X1: toggling the same device twice gives back the registry exactly as
    it was, whatever the id and the list (unknown ids and duplicated ids
    included). *)
Theorem toggleDevice_twice_is_identity (target : string) (prev : list Device) :
  toggleDevice target (toggleDevice target prev) = prev.
Proof.
  unfold toggleDevice. rewrite map_map. apply map_same. intros d.
  destruct (String.eqb (id d) target) eqn:E; simpl; rewrite E.
  - apply flipPower_twice.
  - reflexivity.
Qed.

(** X2: a toggle commutes with any other toggle and with any change of
    value, for equal or different ids: the order in which such updaters
    are queued does not matter. *)
Theorem toggleDevice_commutes (a b : string) (v : option Q) (prev : list Device) :
  toggleDevice a (toggleDevice b prev) = toggleDevice b (toggleDevice a prev) /\
  toggleDevice a (changeDeviceValue b v prev) =
    changeDeviceValue b v (toggleDevice a prev).
Proof.
  unfold toggleDevice, changeDeviceValue. rewrite !map_map.
  split; apply map_ext; intros d;
    destruct (String.eqb (id d) a) eqn:Ea; destruct (String.eqb (id d) b) eqn:Eb;
    simpl; rewrite ?Ea, ?Eb; reflexivity.
Qed.

(** X3: of two changes of value the later one wins when both address the
    same id, and they commute when the ids differ. *)
Theorem changeDeviceValue_twice (a b : string) (v w : option Q) (prev : list Device) :
  changeDeviceValue a v (changeDeviceValue b w prev) =
    if String.eqb a b then changeDeviceValue a v prev
    else changeDeviceValue b w (changeDeviceValue a v prev).
Proof.
  unfold changeDeviceValue.
  destruct (String.eqb_spec a b) as [->|Hne]; rewrite !map_map; apply map_ext; intros d.
  - destruct (String.eqb (id d) b) eqn:Eb; simpl; rewrite Eb; reflexivity.
  - destruct (String.eqb (id d) a) eqn:Ea; destruct (String.eqb (id d) b) eqn:Eb;
      simpl; rewrite ?Ea, ?Eb; try reflexivity.
    apply String.eqb_eq in Ea, Eb. congruence.
Qed.

(** * The counter of active devices *)

Lemma activeCount_cons (d : Device) (l : list Device) :
  activeCount (d :: l) = ((if isOn d then 1 else 0) + activeCount l)%nat.
Proof. unfold activeCount. simpl. destruct (isOn d); reflexivity. Qed.

Lemma toggleDevice_absent (target : string) (l : list Device) :
  ~ In target (map id l) -> toggleDevice target l = l.
Proof.
  intros Hnot. unfold toggleDevice. rewrite <- (map_id l) at 2.
  apply map_ext_in. intros d Hd.
  destruct (String.eqb_spec (id d) target) as [E|N]; [|reflexivity].
  exfalso. apply Hnot. rewrite <- E. now apply in_map.
Qed.

(** X4: when ids are unique, toggling a device of the registry moves the
    counter of active devices by exactly one: down if the device was on, up
    if it was off.  A change of value never moves the counter. *)
Theorem activeCount_after_toggle (d : Device) (prev : list Device) (v : option Q) :
  NoDup (map id prev) -> In d prev ->
  (activeCount (toggleDevice (id d) prev) + (if isOn d then 1 else 0) =
     activeCount prev + (if isOn d then 0 else 1))%nat /\
  activeCount (changeDeviceValue (id d) v prev) = activeCount prev.
Proof.
  intros Hnodup Hin. split.
  - induction prev as [|x l IH]; [destruct Hin|].
    simpl in Hnodup. inversion Hnodup as [|? ? Hx Hl]; subst.
    change (toggleDevice (id d) (x :: l)) with
      ((if String.eqb (id x) (id d) then flipPower x else x) :: toggleDevice (id d) l).
    destruct Hin as [->|Hin].
    + rewrite String.eqb_refl, (@toggleDevice_absent _ _ Hx), !activeCount_cons.
      simpl. destruct (isOn d); simpl; lia.
    + assert (Hne : id x <> id d).
      { intros E. apply Hx. rewrite E. now apply in_map. }
      apply String.eqb_neq in Hne. rewrite Hne, !activeCount_cons.
      specialize (IH Hl Hin). lia.
  - unfold activeCount, changeDeviceValue. clear.
    induction prev as [|x l IH]; simpl; [reflexivity|].
    destruct (String.eqb (id x) (id d)); simpl; destruct (isOn x); simpl; lia.
Qed.

(** X4 on the initial registry, toggling the air conditioner. *)
Lemma activeCount_after_toggle_witness :
  (activeCount (toggleDevice "2" INITIAL_DEVICES) + 1 = activeCount INITIAL_DEVICES + 0)%nat /\
  activeCount (changeDeviceValue "2" (Some 18%Q) INITIAL_DEVICES) = activeCount INITIAL_DEVICES.
Proof.
  apply (@activeCount_after_toggle
           (mkDevice "2" "Ar Condicionado" DeviceType.AC true (Some 24%Q) "Quarto Principal")
           INITIAL_DEVICES (Some 18%Q)).
  - repeat constructor; simpl; intuition discriminate.
  - simpl. right. left. reflexivity.
Defined.

Lemma activeCount_zero (l : list Device) :
  activeCount l = 0%nat <-> forall d, In d l -> isOn d = false.
Proof.
  induction l as [|x l IH]; [split; [intros _ d []|reflexivity]|].
  rewrite activeCount_cons. split.
  - intros H d [<-|Hd].
    + destruct (isOn x); [discriminate|reflexivity].
    + apply IH; [|exact Hd]. destruct (isOn x); [discriminate|exact H].
  - intros H. rewrite (H x (or_introl eq_refl)). simpl.
    apply IH. intros d Hd. apply H. now right.
Qed.

(** X5: the welcome text reads "Tudo tranquilo. Nenhum dispositivo ligado."
    exactly when every device of the registry is off (an empty registry
    included); otherwise it is the count followed by
    " dispositivos estão ativos no momento.", however numbers are printed. *)
Theorem heroText_quiet_iff_all_off `{Runtime} (l : list Device) :
  (heroText l = "Tudo tranquilo. Nenhum dispositivo ligado." <->
     forall d, In d l -> isOn d = false) /\
  (heroText l <> "Tudo tranquilo. Nenhum dispositivo ligado." ->
     heroText l = numberToString (inject_Z (Z.of_nat (activeCount l)))
                    ++ " dispositivos estão ativos no momento.").
Proof.
  unfold heroText. rewrite <- activeCount_zero.
  destruct (Nat.eqb_spec (activeCount l) 0) as [E|N].
  - split; [split; auto | intros C; congruence].
  - split; [|reflexivity]. split; [|intros E; contradiction].
    intros E. exfalso.
    assert (C : includes "Tudo tranquilo. Nenhum dispositivo ligado."
                  " dispositivos estão ativos no momento." = true).
    { apply includes_correct. eexists. exists "". rewrite <- E. reflexivity. }
    vm_compute in C. discriminate.
Qed.

(** * What no event changes: the identity of the devices *)

Ltac destruct_app s :=
  destruct s as [? ? ? ? [?|] [?|] [?|] ? ? ? [? ? ? ? ? ? ? ? ? ?]].

Lemma identity_toggleDevice (target : string) (l : list Device) :
  map identity (toggleDevice target l) = map identity l.
Proof.
  unfold toggleDevice. rewrite map_map. apply map_ext. intros d.
  destruct (String.eqb (id d) target); reflexivity.
Qed.

Lemma identity_changeDeviceValue (target : string) (v : option Q) (l : list Device) :
  map identity (changeDeviceValue target v l) = map identity l.
Proof.
  unfold changeDeviceValue. rewrite map_map. apply map_ext. intros d.
  destruct (String.eqb (id d) target); reflexivity.
Qed.

Lemma identity_handleCall `{Runtime} (current : list Device) (fc : FunctionCall.t)
    (devs devs' : list Device) (r : FunctionResponse.t) :
  handleCall current fc devs = Returned (devs', r) ->
  map identity devs' = map identity devs.
Proof.
  handleCall_branches fc current; intros E; try discriminate;
    injection E as <- _;
    auto using identity_toggleDevice, identity_changeDeviceValue.
Qed.

Lemma identity_toolLoop `{Runtime} (current : list Device)
    (calls : list FunctionCall.t) (devs : list Device)
    (acc : list FunctionResponse.t) :
  map identity (fst (toolLoop current calls devs acc)) = map identity devs.
Proof.
  revert devs acc. induction calls as [|fc rest IH]; intros devs acc; simpl; [reflexivity|].
  destruct (handleCall current fc devs) as [[devs' r]|] eqn:E; [|reflexivity].
  rewrite IH. now apply (identity_handleCall current fc devs E).
Qed.

Lemma onmessage_devices `{Runtime} (msg : LiveServerMessage) (ctxTime : Q) (s : App) :
  devicesRef (onmessage msg ctxTime s) = devicesRef s /\
  devices (onmessage msg ctxTime s) =
    match toolCall msg with
    | Some calls => fst (toolLoop (devicesRef s) calls (devices s) [])
    | None => devices s
    end.
Proof.
  unfold onmessage.
  set (s1 := match audioData msg with
             | Some data =>
                 match audioContextRef s with
                 | Some _ => if String.eqb data "" then s
                             else playAudioBuffer ctxTime (decodeAudioData data) s
                 | None => s
                 end
             | None => s
             end).
  assert (Hs1 : devices s1 = devices s /\ devicesRef s1 = devicesRef s).
  { subst s1. destruct (audioData msg) as [data|]; [|auto].
    destruct (audioContextRef s); [|auto].
    destruct (String.eqb data ""); [auto|].
    split; apply playAudioBuffer_outbox. }
  destruct Hs1 as [Hd Hr].
  destruct (toolCall msg) as [calls|]; [|auto].
  rewrite Hd, Hr.
  destruct (toolLoop (devicesRef s) calls (devices s) []) as [devs [rs|]]; simpl; auto.
Qed.

Lemma disconnect_devices (s : App) :
  devices (disconnect s) = devices s /\ devicesRef (disconnect s) = devicesRef s.
Proof. destruct_app s; split; reflexivity. Qed.

Lemma step_devices `{Runtime} (e : Event) (s s' : App) :
  step e s = Some s' ->
  map identity (devices s') = map identity (devices s) /\
  (devicesRef s' = devicesRef s \/ devicesRef s' = devices s).
Proof.
  destruct e; simpl; intros Hstep.
  - injection Hstep as <-. unfold toggleConnection.
    destruct (isLiveConnected s).
    + destruct (disconnect_devices s) as [-> ->]. auto.
    + auto.
  - injection Hstep as <-. simpl. split; [apply identity_toggleDevice | auto].
  - injection Hstep as <-. simpl. split; [apply identity_changeDeviceValue | auto].
  - injection Hstep as <-. simpl. auto.
  - destruct (pendingHandshakes (world s)); [discriminate|]. injection Hstep as <-. auto.
  - destruct (pendingMicRequests (world s)); [discriminate|]. injection Hstep as <-. auto.
  - destruct (pendingMicRequests (world s)); [discriminate|]. injection Hstep as <-. auto.
  - injection Hstep as <-.
    destruct (onmessage_devices msg ctxTime s) as [-> ->].
    split; [|auto]. destruct (toolCall msg); [apply identity_toolLoop | reflexivity].
  - injection Hstep as <-. unfold onclose.
    destruct (disconnect_devices s) as [-> ->]. auto.
  - injection Hstep as <-. unfold onerror.
    match goal with |- context [disconnect ?t] =>
      destruct (disconnect_devices t) as [-> ->] end. auto.
  - destruct (existsb _ _); [|discriminate]. injection Hstep as <-. auto.
Qed.

Lemma run_devices_identity `{Runtime} (es : list Event) (s s' : App) :
  run es s = Some s' -> map identity (devices s') = map identity (devices s).
Proof.
  revert s. induction es as [|e rest IH]; intros s Hrun; simpl in Hrun.
  - now injection Hrun as <-.
  - destruct (step e s) as [s1|] eqn:E; [|discriminate].
    rewrite (IH _ Hrun). now apply (step_devices e s).
Qed.

(** X6: whatever happens (button presses, card clicks, tool calls, session
    callbacks), the registry keeps its devices: the list of (id, name,
    type, room) is the same after any sequence of events, so nothing is
    ever added, removed, renamed, moved or reordered. *)
Theorem devices_keep_their_identity `{Runtime} (es : list Event) (s s' : App) :
  run es s = Some s' ->
  map identity (devices s') = map identity (devices s) /\
  List.length (devices s') = List.length (devices s).
Proof.
  intros Hrun.
  assert (Hid := run_devices_identity es s Hrun).
  split; [exact Hid|].
  rewrite <- (length_map identity (devices s')), Hid. apply length_map.
Qed.

(** X6 on a run that toggles, dispatches a tool call and changes a value. *)
Lemma devices_keep_their_identity_witness :
  exists s',
    @run asciiRuntime
      [CardToggle "1";
       Message (mkMessage None (Some [FunctionCall.mk "setDeviceValue"
                  (Args.mk (Some "persiana") None (Some 40%Q)) "call-1"])) 0%Q;
       CardChange "2" 18%Q] initialApp = Some s' /\
    map identity (devices s') = map identity (devices initialApp) /\
    List.length (devices s') = List.length (devices initialApp).
Proof.
  eexists. split; [reflexivity|].
  apply (@devices_keep_their_identity asciiRuntime
           [CardToggle "1";
            Message (mkMessage None (Some [FunctionCall.mk "setDeviceValue"
                       (Args.mk (Some "persiana") None (Some 40%Q)) "call-1"])) 0%Q;
            CardChange "2" 18%Q] initialApp).
  reflexivity.
Defined.

Lemma deviceListString_identity (l1 l2 : list Device) :
  map identity l1 = map identity l2 -> deviceListString l1 = deviceListString l2.
Proof.
  intros Hid. unfold deviceListString.
  set (g := fun i : string * string * DeviceType.t * string =>
              let '(_, n, _, r) := i in n ++ " (no cômodo " ++ r ++ ")").
  assert (Hg : forall l, map (fun d => name d ++ " (no cômodo " ++ room d ++ ")") l =
                         map g (map identity l)).
  { intros l. rewrite map_map. apply map_ext. reflexivity. }
  now rewrite !Hg, Hid.
Qed.

(** X7: the device list written into the system instruction mentions only
    names and rooms, so it is the same string whenever the session is
    connected: no sequence of events changes it. *)
Theorem deviceListString_is_stable `{Runtime} (es : list Event) (s s' : App) :
  run es s = Some s' ->
  deviceListString (devices s') = deviceListString (devices s).
Proof.
  intros Hrun. apply deviceListString_identity.
  apply (run_devices_identity es s Hrun).
Qed.

(** X7 on a run that toggles a device and lets a tool call change a value. *)
Lemma deviceListString_is_stable_witness :
  exists s',
    @run asciiRuntime
      [CardToggle "5";
       Message (mkMessage None (Some [FunctionCall.mk "setDeviceValue"
                  (Args.mk (Some "leitura") None (Some 10%Q)) "call-1"])) 0%Q]
      initialApp = Some s' /\
    deviceListString (devices s') = deviceListString (devices initialApp).
Proof.
  eexists. split; [reflexivity|].
  apply (@deviceListString_is_stable asciiRuntime
           [CardToggle "5";
            Message (mkMessage None (Some [FunctionCall.mk "setDeviceValue"
                       (Args.mk (Some "leitura") None (Some 10%Q)) "call-1"])) 0%Q]
           initialApp).
  reflexivity.
Defined.

(** * The snapshot read by the dispatcher *)

Lemma findDevice_identity `{Runtime} (q : string) (c1 c2 : list Device) :
  map identity c1 = map identity c2 ->
  option_map identity (findDevice q c1) = option_map identity (findDevice q c2).
Proof.
  unfold findDevice. revert c2.
  induction c1 as [|x c1 IH]; intros [|y c2] Hid; simpl in *; try discriminate.
  - reflexivity.
  - unfold identity in Hid at 1 3. injection Hid as Hi Hn Ht Hr Hrest.
    assert (Hm : matchesName q x = matchesName q y).
    { unfold matchesName. now rewrite Hn. }
    rewrite Hm. destruct (matchesName q y); simpl; [|now apply IH].
    unfold identity. congruence.
Qed.

Lemma handleCall_identity `{Runtime} (c1 c2 : list Device) (fc : FunctionCall.t)
    (devs : list Device) :
  map identity c1 = map identity c2 ->
  handleCall c1 fc devs = handleCall c2 fc devs.
Proof.
  intros Hid. unfold handleCall, findTarget.
  destruct (Args.deviceName (FunctionCall.args fc)) as [q|].
  - pose proof (findDevice_identity q c1 c2 Hid) as Hf.
    destruct (findDevice q c1) as [t1|]; destruct (findDevice q c2) as [t2|];
      simpl in Hf; try discriminate; [|reflexivity].
    injection Hf as Hi Hn _ _. now rewrite Hi, Hn.
  - destruct c1; destruct c2; try discriminate; reflexivity.
Qed.

Lemma toolLoop_identity `{Runtime} (c1 c2 : list Device) (calls : list FunctionCall.t)
    (devs : list Device) (acc : list FunctionResponse.t) :
  map identity c1 = map identity c2 ->
  toolLoop c1 calls devs acc = toolLoop c2 calls devs acc.
Proof.
  intros Hid. revert devs acc. induction calls as [|fc rest IH]; intros devs acc; simpl.
  - reflexivity.
  - rewrite (handleCall_identity c1 c2 fc devs Hid).
    destruct (handleCall c2 fc devs) as [[devs' r]|]; [apply IH | reflexivity].
Qed.

Lemma run_snapshot_identity `{Runtime} (es : list Event) (s s' : App) :
  map identity (devicesRef s) = map identity (devices s) ->
  run es s = Some s' ->
  map identity (devicesRef s') = map identity (devices s').
Proof.
  revert s. induction es as [|e rest IH]; intros s Hsync Hrun; simpl in Hrun.
  - now injection Hrun as <-.
  - destruct (step e s) as [s1|] eqn:E; [|discriminate].
    apply (IH s1); [|exact Hrun].
    destruct (step_devices e s E) as [Hd [Hr|Hr]]; rewrite Hr, Hd; auto.
Qed.

(** X8: the dispatcher looks devices up in [devicesRef], a copy that may
    lag behind the state.  The lag never shows: in every state reached
    from one where the copy was in sync, a message produces the same
    registry, the same responses and the same effects as it would after
    the copy had been refreshed. *)
Theorem stale_snapshot_is_harmless `{Runtime} (es : list Event) (s0 s : App)
    (msg : LiveServerMessage) (ctxTime : Q) :
  devicesRef s0 = devices s0 ->
  run es s0 = Some s ->
  devices (onmessage msg ctxTime s) =
    devices (onmessage msg ctxTime (syncDevicesRef s)) /\
  world (onmessage msg ctxTime s) =
    world (onmessage msg ctxTime (syncDevicesRef s)).
Proof.
  intros Hsync Hrun.
  assert (Hid : map identity (devicesRef s) = map identity (devices s)).
  { apply (run_snapshot_identity es s0); [now rewrite Hsync | exact Hrun]. }
  unfold onmessage.
  destruct s as [devs live act st ctx src proc cur sess dref w].
  simpl in Hid. unfold syncDevicesRef. simpl.
  destruct (audioData msg) as [data|]; destruct ctx as [c|];
    try destruct (String.eqb data ""); unfold playAudioBuffer; simpl;
    (destruct (toolCall msg) as [calls|]; [|split; reflexivity]);
    rewrite (toolLoop_identity dref devs calls devs [] Hid);
    destruct (toolLoop devs calls devs []) as [devs' [rs|]]; split; reflexivity.
Qed.

(** X8 with a stale copy: the light was toggled on its card and no render
    has refreshed the copy when the tool call arrives. *)
Lemma stale_snapshot_is_harmless_witness :
  exists s,
    @run asciiRuntime [CardToggle "1"] initialApp = Some s /\
    devicesRef s <> devices s /\
    let msg := mkMessage None (Some [FunctionCall.mk "controlDevice"
                 (Args.mk (Some "sala") (Some "turnOff") None) "call-1"]) in
    devices (@onmessage asciiRuntime msg 0%Q s) =
      devices (@onmessage asciiRuntime msg 0%Q (syncDevicesRef s)) /\
    world (@onmessage asciiRuntime msg 0%Q s) =
      world (@onmessage asciiRuntime msg 0%Q (syncDevicesRef s)).
Proof.
  eexists. split; [reflexivity|]. split; [discriminate|].
  apply (@stale_snapshot_is_harmless asciiRuntime [CardToggle "1"] initialApp);
    reflexivity.
Defined.

(** * Batches of tool calls *)

Lemma toolLoop_acc `{Runtime} (current : list Device) (calls : list FunctionCall.t)
    (devs : list Device) (acc : list FunctionResponse.t) :
  toolLoop current calls devs acc =
  (fst (toolLoop current calls devs []),
   match snd (toolLoop current calls devs []) with
   | Returned rs => Returned (acc ++ rs)%list
   | TypeError => TypeError
   end).
Proof.
  revert devs acc. induction calls as [|fc rest IH]; intros devs acc; simpl.
  - now rewrite app_nil_r.
  - destruct (handleCall current fc devs) as [[devs' r]|]; [|reflexivity].
    rewrite (IH devs' (acc ++ [r])%list), (IH devs' [r]). simpl.
    destruct (snd (toolLoop current rest devs' [])); [|reflexivity].
    now rewrite <- app_assoc.
Qed.

Lemma toolLoop_app `{Runtime} (current : list Device) (c1 c2 : list FunctionCall.t)
    (devs : list Device) (acc : list FunctionResponse.t) :
  toolLoop current (c1 ++ c2) devs acc =
  match toolLoop current c1 devs acc with
  | (d1, Returned r1) => toolLoop current c2 d1 r1
  | (d1, TypeError) => (d1, TypeError)
  end.
Proof.
  revert devs acc. induction c1 as [|fc rest IH]; intros devs acc; simpl.
  - reflexivity.
  - destruct (handleCall current fc devs) as [[devs' r]|]; [apply IH | reflexivity].
Qed.

(** X9: when every [controlDevice] and [setDeviceValue] call carries a
    string device name, sending the calls of one message as two messages,
    one after the other with no render in between, leaves the registry in
    the same state; only the grouping of the responses differs: one
    response carrying [r1 ++ r2] against two responses carrying [r1] and
    [r2]. *)
Theorem splitting_a_batch `{Runtime} (c1 c2 : list FunctionCall.t)
    (t t1 t2 : Q) (s : App) :
  Forall (fun fc => wellFormed fc = true) c1 ->
  Forall (fun fc => wellFormed fc = true) c2 ->
  let whole := onmessage (mkMessage None (Some (c1 ++ c2)%list)) t s in
  let parts := onmessage (mkMessage None (Some c2)) t2
                 (onmessage (mkMessage None (Some c1)) t1 s) in
  devices whole = devices parts /\
  exists r1 r2,
    outbox (world whole) = (outbox (world s) ++ [ToolResponse (r1 ++ r2)])%list /\
    outbox (world parts) =
      (outbox (world s) ++ [ToolResponse r1; ToolResponse r2])%list /\
    List.length r1 = List.length c1 /\ List.length r2 = List.length c2.
Proof.
  intros H1 H2. cbv zeta. unfold onmessage. simpl.
  rewrite toolLoop_app.
  destruct (toolLoop_wellFormed (devicesRef s) (devices s) [] H1) as [r1 [E1 A1]].
  destruct (toolLoop (devicesRef s) c1 (devices s) []) as [d1 o1].
  simpl in E1. subst o1. simpl.
  rewrite (toolLoop_acc (devicesRef s) c2 d1 r1).
  destruct (toolLoop_wellFormed (devicesRef s) d1 [] H2) as [r2 [E2 A2]].
  destruct (toolLoop (devicesRef s) c2 d1 []) as [d2 o2].
  simpl in E2. subst o2. simpl.
  split; [reflexivity|]. exists r1, r2.
  split; [reflexivity|]. split; [now rewrite <- app_assoc|].
  split; symmetry; eapply Forall2_length; eassumption.
Qed.

(** X9 on three calls split after the first. *)
Lemma splitting_a_batch_witness :
  let c1 := [FunctionCall.mk "controlDevice" (Args.mk (Some "sala") (Some "turnOn") None) "call-1"] in
  let c2 := [FunctionCall.mk "setDeviceValue" (Args.mk (Some "sala") None (Some 30%Q)) "call-2";
             FunctionCall.mk "controlDevice" (Args.mk (Some "cozinha") (Some "turnOff") None) "call-3"] in
  let whole := @onmessage asciiRuntime (mkMessage None (Some (c1 ++ c2)%list)) 0%Q initialApp in
  let parts := @onmessage asciiRuntime (mkMessage None (Some c2)) 0%Q
                 (@onmessage asciiRuntime (mkMessage None (Some c1)) 0%Q initialApp) in
  devices whole = devices parts /\
  exists r1 r2,
    outbox (world whole) = (outbox (world initialApp) ++ [ToolResponse (r1 ++ r2)])%list /\
    outbox (world parts) =
      (outbox (world initialApp) ++ [ToolResponse r1; ToolResponse r2])%list /\
    List.length r1 = List.length c1 /\ List.length r2 = List.length c2.
Proof.
  cbv zeta.
  apply (@splitting_a_batch asciiRuntime
           [FunctionCall.mk "controlDevice" (Args.mk (Some "sala") (Some "turnOn") None) "call-1"]
           [FunctionCall.mk "setDeviceValue" (Args.mk (Some "sala") None (Some 30%Q)) "call-2";
            FunctionCall.mk "controlDevice" (Args.mk (Some "cozinha") (Some "turnOff") None) "call-3"]
           0%Q 0%Q 0%Q initialApp); repeat constructor.
Defined.

(** * Playback of any number of buffers *)

Lemma playAll_context (arrivals : list (Q * AudioBuffer)) (s : App) :
  audioContextRef (playAll arrivals s) = audioContextRef s.
Proof.
  revert s. induction arrivals as [|[t b] rest IH]; intros s; simpl; [reflexivity|].
  rewrite IH. unfold playAudioBuffer. destruct (audioContextRef s) eqn:E; [|exact E].
  simpl. exact E.
Qed.

Lemma Qmax_bounds (a b : Q) : (a <= Qmax a b)%Q /\ (b <= Qmax a b)%Q.
Proof. split; [apply Q.le_max_l | apply Q.le_max_r]. Qed.

(** X10: while an output context is held, buffers handed to the scheduler
    at any clock readings are scheduled in arrival order, none before its
    own arrival, none before the cursor, and none before the previous one
    has ended; the cursor ends where the last buffer ends.  Late arrivals
    leave a gap, never an overlap. *)
Theorem playback_never_overlaps (arrivals : list (Q * AudioBuffer)) (s : App) :
  audioContextRef s <> None ->
  exists entries,
    scheduled (world (playAll arrivals s)) = (scheduled (world s) ++ entries)%list /\
    map snd entries = map snd arrivals /\
    Forall2 (fun arrival entry => (fst arrival <= fst entry)%Q) arrivals entries /\
    noOverlap (nextStartTimeRef s) entries /\
    nextStartTimeRef (playAll arrivals s) =
      match rev entries with
      | [] => nextStartTimeRef s
      | (startAt, buffer) :: _ => (startAt + duration buffer)%Q
      end.
Proof.
  revert s. induction arrivals as [|[t b] rest IH]; intros s Hctx; simpl.
  - exists []. rewrite app_nil_r. repeat split; constructor.
  - destruct (playAudioBuffer_step t b s Hctx) as [S1 [N1 C1]].
    set (s1 := playAudioBuffer t b s) in *.
    destruct (IH s1) as [entries [Hs [Hb [Ha [Ho Hn]]]]]; [congruence|].
    exists ((Qmax t (nextStartTimeRef s), b) :: entries).
    rewrite Hs, S1, <- app_assoc. split; [reflexivity|].
    split; [simpl; now rewrite Hb|].
    split; [constructor; [apply Qmax_bounds | exact Ha]|].
    split; [simpl; split; [apply Qmax_bounds | now rewrite <- N1]|].
    rewrite Hn. simpl. destruct (rev entries) as [|[a c] tl] eqn:Er; simpl.
    + exact N1.
    + reflexivity.
Qed.

(** X10 after a connection: the second buffer arrives late (at 5, the
    first having ended at 3/2), the third on time. *)
Lemma playback_never_overlaps_witness :
  let b := mkAudioBuffer (1 # 2) in
  let arrivals := [(1%Q, b); (5%Q, b); ((51 # 10)%Q, b)] in
  let s := connectToGemini initialApp in
  exists entries,
    scheduled (world (playAll arrivals s)) = (scheduled (world s) ++ entries)%list /\
    map snd entries = map snd arrivals /\
    Forall2 (fun arrival entry => (fst arrival <= fst entry)%Q) arrivals entries /\
    noOverlap (nextStartTimeRef s) entries /\
    nextStartTimeRef (playAll arrivals s) =
      match rev entries with
      | [] => nextStartTimeRef s
      | (startAt, buffer) :: _ => (startAt + duration buffer)%Q
      end.
Proof.
  cbv zeta.
  apply (@playback_never_overlaps
           [(1%Q, mkAudioBuffer (1 # 2)); (5%Q, mkAudioBuffer (1 # 2));
            ((51 # 10)%Q, mkAudioBuffer (1 # 2))]
           (connectToGemini initialApp)).
  simpl. discriminate.
Defined.

(** X11: buffers that all arrive before the cursor (the previous audio is
    still pending) are scheduled back to back however many they are and
    whatever the jitter of their arrival: the first starts at the cursor
    and each next one exactly where the previous ends. *)
Theorem playback_is_gapless_when_fed_in_time (arrivals : list (Q * AudioBuffer))
    (s : App) :
  audioContextRef s <> None ->
  Forall (fun arrival => (fst arrival < nextStartTimeRef s)%Q /\
                         (0 <= duration (snd arrival))%Q) arrivals ->
  exists entries,
    scheduled (world (playAll arrivals s)) = (scheduled (world s) ++ entries)%list /\
    map snd entries = map snd arrivals /\
    backToBack (nextStartTimeRef s) entries.
Proof.
  revert s. induction arrivals as [|[t b] rest IH]; intros s Hctx Hall; simpl.
  - exists []. rewrite app_nil_r. repeat split.
  - inversion Hall as [|? ? [Ht Hd] Hrest]; subst. simpl in Ht, Hd.
    destruct (playAudioBuffer_step t b s Hctx) as [S1 [N1 C1]].
    rewrite (Qmax_second Ht) in S1, N1.
    set (s1 := playAudioBuffer t b s) in *.
    destruct (IH s1) as [entries [Hs [Hb Hbb]]]; [congruence| |].
    + rewrite N1. eapply Forall_impl; [|exact Hrest].
      intros a [Ha Hda]. split; [lra | exact Hda].
    + exists ((nextStartTimeRef s, b) :: entries).
      rewrite Hs, S1, <- app_assoc. split; [reflexivity|].
      split; [simpl; now rewrite Hb|].
      simpl. split; [reflexivity | now rewrite <- N1].
Qed.

(** X11 with a cursor left at 2 by an earlier buffer and three buffers
    arriving at 1, 3/2 and 19/10. *)
Lemma playback_is_gapless_when_fed_in_time_witness :
  let b := mkAudioBuffer (1 # 2) in
  let arrivals := [(1%Q, b); ((3 # 2)%Q, b); ((19 # 10)%Q, b)] in
  let s := playAudioBuffer 0 (mkAudioBuffer 2) (connectToGemini initialApp) in
  exists entries,
    scheduled (world (playAll arrivals s)) = (scheduled (world s) ++ entries)%list /\
    map snd entries = map snd arrivals /\
    backToBack (nextStartTimeRef s) entries.
Proof.
  cbv zeta.
  apply (@playback_is_gapless_when_fed_in_time
           [(1%Q, mkAudioBuffer (1 # 2)); ((3 # 2)%Q, mkAudioBuffer (1 # 2));
            ((19 # 10)%Q, mkAudioBuffer (1 # 2))]
           (playAudioBuffer 0 (mkAudioBuffer 2) (connectToGemini initialApp))).
  - simpl. discriminate.
  - repeat constructor; simpl; lra.
Defined.

(** * Captured frames *)

Lemma existsb_eqb_in (p : nat) (l : list nat) :
  In p l -> existsb (Nat.eqb p) l = true.
Proof.
  intros Hin. apply existsb_exists. exists p. split; [exact Hin | apply Nat.eqb_refl].
Qed.

(** X12: while a processor is wired, every block it delivers is encoded and
    sent as one realtime input, in the order of delivery; nothing is
    dropped, merged or reordered, and nothing else of the component
    changes. *)
Theorem frames_are_relayed_in_order `{Runtime} (p : nat) (frames : list (list Q))
    (s : App) :
  In p (liveProcessors (world s)) ->
  exists s',
    run (map (AudioProcess p) frames) s = Some s' /\
    outbox (world s') =
      (outbox (world s) ++
         map (fun inputData => RealtimeInput (createPcmBlob inputData)) frames)%list /\
    devices s' = devices s /\
    nextStartTimeRef s' = nextStartTimeRef s /\
    liveProcessors (world s') = liveProcessors (world s) /\
    scheduled (world s') = scheduled (world s).
Proof.
  revert s. induction frames as [|f rest IH]; intros s Hp; simpl.
  - exists s. rewrite app_nil_r. repeat split; reflexivity.
  - rewrite (existsb_eqb_in _ _ Hp).
    destruct (IH (onaudioprocess f s)) as [s' [Hrun [Hout [Hd [Hn [Hl Hs]]]]]].
    { exact Hp. }
    exists s'. split; [exact Hrun|]. rewrite Hout, Hd, Hn, Hl, Hs. simpl.
    rewrite <- app_assoc. repeat split; reflexivity.
Qed.

(** X12 on a running session: two blocks of two and of one sample. *)
Lemma frames_are_relayed_in_order_witness :
  exists s s',
    @run countingRuntime [Click; Open; MicGranted] initialApp = Some s /\
    processorRef s = Some 5%nat /\
    @run countingRuntime (map (AudioProcess 5) [[0%Q; 1%Q]; [0%Q]]) s = Some s' /\
    outbox (world s') = [RealtimeInput "2"; RealtimeInput "1"].
Proof.
  match eval vm_compute in (@run countingRuntime [Click; Open; MicGranted] initialApp) with
  | Some ?t => exists t
  end.
  destruct (@frames_are_relayed_in_order countingRuntime 5 [[0%Q; 1%Q]; [0%Q]]
              (mkApp INITIAL_DEVICES true true "Ouvindo... Pode falar."
                 (Some 0%nat) (Some 4%nat) (Some 5%nat) 0 (Some 1%nat) INITIAL_DEVICES
                 (mkWorld 6 [0%nat; 3%nat] [4%nat] [5%nat] [2%nat] 0 0 [] [] [])))
    as [s' [Hrun [Hout _]]].
  { simpl. left. reflexivity. }
  exists s'. split; [vm_compute; reflexivity|]. split; [reflexivity|].
  split; [exact Hrun | exact Hout].
Defined.

(** * Resources across events *)

Lemma sameSession_onmessage `{Runtime} (msg : LiveServerMessage) (ctxTime : Q) (s : App) :
  sameSession s (onmessage msg ctxTime s).
Proof.
  unfold onmessage.
  set (s1 := match audioData msg with
             | Some data =>
                 match audioContextRef s with
                 | Some _ => if String.eqb data "" then s
                             else playAudioBuffer ctxTime (decodeAudioData data) s
                 | None => s
                 end
             | None => s
             end).
  assert (H1 : sameSession s s1).
  { subst s1. destruct (audioData msg) as [data|]; [|repeat split].
    destruct (audioContextRef s) eqn:E; [|repeat split].
    destruct (String.eqb data ""); [repeat split|].
    unfold playAudioBuffer. rewrite E. repeat split. }
  destruct (toolCall msg) as [calls|]; [|exact H1].
  destruct (toolLoop (devicesRef s1) calls (devices s1) []) as [devs [rs|]];
    exact H1.
Qed.

Lemma sameSession_consistent (s s' : App) :
  sameSession s s' -> consistent s -> consistent s'.
Proof.
  unfold sameSession, consistent.
  intros [-> [-> [-> [-> [-> [-> [-> [_ ->]]]]]]]]. auto.
Qed.

Lemma sameSession_orphaned (c : nat) (s s' : App) :
  sameSession s s' -> orphaned c s -> orphaned c s'.
Proof.
  unfold sameSession, orphaned.
  intros [_ [_ [-> [_ [-> [_ [_ [_ ->]]]]]]]]. auto.
Qed.

Lemma consistent_disconnect (s : App) : consistent (disconnect s).
Proof.
  destruct (disconnect_released s) as [_ [Ha [_ [Hp [Hi [Hc _]]]]]].
  unfold consistent. rewrite Ha, Hp, Hi, Hc.
  repeat split; try discriminate; try congruence.
Qed.

Lemma consistent_connectToGemini (s : App) :
  consistent s -> consistent (connectToGemini s).
Proof.
  unfold consistent. intros [Hp [Hi [Hc [Ha Hpi]]]]. unfold connectToGemini. cbn.
  repeat split; try apply Hi; try apply Ha; try apply Hpi.
  - now apply Hp.
  - destruct (Hp p H) as [_ Hlt]. lia.
  - injection H as <-. apply in_or_app. right. left. reflexivity.
  - injection H as <-. lia.
Qed.

Lemma consistent_microphoneGranted (s : App) :
  consistent s -> consistent (microphoneGranted s).
Proof.
  unfold consistent. intros [Hp [Hi [Hc [Ha Hpi]]]]. unfold microphoneGranted. cbn.
  repeat split; try discriminate; try reflexivity.
  - injection H as <-. apply in_or_app. right. left. reflexivity.
  - injection H as <-. lia.
  - intros i E. injection E as <-. apply in_or_app. right. left. reflexivity.
  - apply in_or_app. left. now apply Hc.
  - destruct (Hc c H) as [_ Hlt]. lia.
Qed.

Lemma step_consistent `{Runtime} (e : Event) (s s' : App) :
  step e s = Some s' -> consistent s -> consistent s'.
Proof.
  destruct e; simpl; intros Hstep Hs.
  - injection Hstep as <-. unfold toggleConnection. destruct (isLiveConnected s).
    + apply consistent_disconnect.
    + now apply consistent_connectToGemini.
  - injection Hstep as <-. revert Hs. apply sameSession_consistent. repeat split.
  - injection Hstep as <-. revert Hs. apply sameSession_consistent. repeat split.
  - injection Hstep as <-. revert Hs. apply sameSession_consistent. repeat split.
  - destruct (pendingHandshakes (world s)); [discriminate|]. injection Hstep as <-.
    revert Hs. apply sameSession_consistent. repeat split.
  - destruct (pendingMicRequests (world s)) as [|n]; [discriminate|]. injection Hstep as <-.
    apply consistent_microphoneGranted.
    revert Hs. apply sameSession_consistent. repeat split.
  - destruct (pendingMicRequests (world s)); [discriminate|]. injection Hstep as <-.
    revert Hs. apply sameSession_consistent. repeat split.
  - injection Hstep as <-. revert Hs. apply sameSession_consistent.
    apply sameSession_onmessage.
  - injection Hstep as <-. apply consistent_disconnect.
  - injection Hstep as <-. apply consistent_disconnect.
  - destruct (existsb _ _); [|discriminate]. injection Hstep as <-.
    revert Hs. apply sameSession_consistent. repeat split.
Qed.

Lemma run_consistent `{Runtime} (es : list Event) (s s' : App) :
  consistent s -> run es s = Some s' -> consistent s'.
Proof.
  revert s. induction es as [|e rest IH]; intros s Hs Hrun; simpl in Hrun.
  - now injection Hrun as <-.
  - destruct (step e s) as [s1|] eqn:E; [|discriminate].
    apply (IH s1); [eapply step_consistent; eassumption | exact Hrun].
Qed.

Lemma consistent_initialApp : consistent initialApp.
Proof. unfold consistent. simpl. repeat split; try discriminate; congruence. Qed.

(** X13: in every state the component can reach from its initial state, a
    ref that is set points at a resource that is still wired or open, the
    two capture refs are set or cleared together, and the flag shown to the
    user as "stream active" is true exactly when they are set. *)
Theorem reachable_states_are_consistent `{Runtime} (es : list Event) (s : App) :
  run es initialApp = Some s ->
  (forall p, processorRef s = Some p -> In p (liveProcessors (world s))) /\
  (forall i, inputSourceRef s = Some i -> In i (liveSources (world s))) /\
  (forall c, audioContextRef s = Some c -> In c (openContexts (world s))) /\
  (isAudioStreamActive s = true <-> processorRef s <> None) /\
  (processorRef s = None <-> inputSourceRef s = None).
Proof.
  intros Hrun.
  destruct (@run_consistent _ es initialApp s consistent_initialApp Hrun) as [Hp [Hi [Hc [Ha Hpi]]]].
  repeat split; auto; try apply Ha; try apply Hpi.
  - intros p E. apply (Hp p E).
  - intros c E. apply (Hc c E).
Qed.

(** X13 on a session that is opened, captures, and is torn down by a
    remote error. *)
Lemma reachable_states_are_consistent_witness :
  exists s,
    @run asciiRuntime [Click; Open; MicGranted; Error; Click; Open] initialApp = Some s /\
    (isAudioStreamActive s = true <-> processorRef s <> None).
Proof.
  match eval vm_compute in
    (@run asciiRuntime [Click; Open; MicGranted; Error; Click; Open] initialApp) with
  | Some ?t => exists t
  end.
  split; [vm_compute; reflexivity|].
  apply (@reachable_states_are_consistent asciiRuntime
           [Click; Open; MicGranted; Error; Click; Open]).
  vm_compute. reflexivity.
Defined.

(** * What is never released *)

Lemma disconnect_world (s : App) :
  streams (world (disconnect s)) = streams (world s) /\
  fresh (world (disconnect s)) = fresh (world s) /\
  openContexts (world (disconnect s)) =
    match audioContextRef s with
    | Some c => remove_handle c (openContexts (world s))
    | None => openContexts (world s)
    end.
Proof. destruct_app s; repeat split; reflexivity. Qed.

Lemma orphaned_disconnect (c : nat) (s : App) :
  orphaned c s -> orphaned c (disconnect s).
Proof.
  unfold orphaned. intros [Hin [Hne Hlt]].
  destruct (disconnect_world s) as [_ [-> ->]].
  destruct (disconnect_released s) as [_ [_ [_ [_ [_ [-> _]]]]]].
  repeat split; [|discriminate|exact Hlt].
  destruct (audioContextRef s) as [held|]; [|exact Hin].
  unfold remove_handle. apply filter_In. split; [exact Hin|].
  apply negb_true_iff, Nat.eqb_neq. congruence.
Qed.

Lemma orphaned_connectToGemini (c : nat) (s : App) :
  orphaned c s -> orphaned c (connectToGemini s).
Proof.
  unfold orphaned. intros [Hin [Hne Hlt]]. unfold connectToGemini. cbn.
  repeat split.
  - apply in_or_app. now left.
  - intros E. injection E as E. lia.
  - lia.
Qed.

Lemma orphaned_microphoneGranted (c : nat) (s : App) :
  orphaned c s -> orphaned c (microphoneGranted s).
Proof.
  unfold orphaned. intros [Hin [Hne Hlt]]. unfold microphoneGranted. cbn.
  repeat split; [apply in_or_app; now left | exact Hne | lia].
Qed.

Lemma step_orphaned `{Runtime} (c : nat) (e : Event) (s s' : App) :
  step e s = Some s' -> orphaned c s -> orphaned c s'.
Proof.
  destruct e; simpl; intros Hstep Hs.
  - injection Hstep as <-. unfold toggleConnection. destruct (isLiveConnected s).
    + now apply orphaned_disconnect.
    + now apply orphaned_connectToGemini.
  - injection Hstep as <-. revert Hs. apply sameSession_orphaned. repeat split.
  - injection Hstep as <-. revert Hs. apply sameSession_orphaned. repeat split.
  - injection Hstep as <-. revert Hs. apply sameSession_orphaned. repeat split.
  - destruct (pendingHandshakes (world s)); [discriminate|]. injection Hstep as <-.
    revert Hs. apply sameSession_orphaned. repeat split.
  - destruct (pendingMicRequests (world s)) as [|n]; [discriminate|]. injection Hstep as <-.
    apply orphaned_microphoneGranted.
    revert Hs. apply sameSession_orphaned. repeat split.
  - destruct (pendingMicRequests (world s)); [discriminate|]. injection Hstep as <-.
    revert Hs. apply sameSession_orphaned. repeat split.
  - injection Hstep as <-. revert Hs. apply sameSession_orphaned.
    apply sameSession_onmessage.
  - injection Hstep as <-. now apply orphaned_disconnect.
  - injection Hstep as <-. unfold onerror. apply orphaned_disconnect.
    revert Hs. apply sameSession_orphaned. repeat split.
  - destruct (existsb _ _); [|discriminate]. injection Hstep as <-.
    revert Hs. apply sameSession_orphaned. repeat split.
Qed.

Lemma run_orphaned `{Runtime} (c : nat) (es : list Event) (s s' : App) :
  orphaned c s -> run es s = Some s' -> orphaned c s'.
Proof.
  revert s. induction es as [|e rest IH]; intros s Hs Hrun; simpl in Hrun.
  - now injection Hrun as <-.
  - destruct (step e s) as [s1|] eqn:E; [|discriminate].
    apply (IH s1); [eapply step_orphaned; eassumption | exact Hrun].
Qed.

Lemma step_streams `{Runtime} (x : nat) (e : Event) (s s' : App) :
  step e s = Some s' -> In x (streams (world s)) -> In x (streams (world s')).
Proof.
  destruct e; simpl; intros Hstep Hx.
  - injection Hstep as <-. unfold toggleConnection. destruct (isLiveConnected s).
    + now destruct (disconnect_world s) as [-> _].
    + exact Hx.
  - injection Hstep as <-. exact Hx.
  - injection Hstep as <-. exact Hx.
  - injection Hstep as <-. exact Hx.
  - destruct (pendingHandshakes (world s)); [discriminate|]. injection Hstep as <-. exact Hx.
  - destruct (pendingMicRequests (world s)); [discriminate|]. injection Hstep as <-.
    unfold microphoneGranted. cbn. apply in_or_app. now left.
  - destruct (pendingMicRequests (world s)); [discriminate|]. injection Hstep as <-. exact Hx.
  - injection Hstep as <-.
    destruct (sameSession_onmessage msg ctxTime s) as [_ [_ [_ [_ [_ [_ [_ [-> _]]]]]]]].
    exact Hx.
  - injection Hstep as <-. unfold onclose. now destruct (disconnect_world s) as [-> _].
  - injection Hstep as <-. unfold onerror.
    match goal with |- context [disconnect ?t] =>
      destruct (disconnect_world t) as [-> _] end. exact Hx.
  - destruct (existsb _ _); [|discriminate]. injection Hstep as <-. exact Hx.
Qed.

Lemma run_streams `{Runtime} (x : nat) (es : list Event) (s s' : App) :
  In x (streams (world s)) -> run es s = Some s' -> In x (streams (world s')).
Proof.
  revert s. induction es as [|e rest IH]; intros s Hs Hrun; simpl in Hrun.
  - now injection Hrun as <-.
  - destruct (step e s) as [s1|] eqn:E; [|discriminate].
    apply (IH s1); [eapply step_streams; eassumption | exact Hrun].
Qed.

(** X14: each time the microphone is granted the component obtains a media
    stream and opens an input audio context of its own.  Neither is kept
    in a ref, and nothing that can happen afterwards (disconnect included)
    stops the stream or closes that context. *)
Theorem capture_stream_and_context_are_never_released `{Runtime}
    (es0 : list Event) (s s1 : App) :
  run es0 initialApp = Some s ->
  step MicGranted s = Some s1 ->
  exists stream inputCtx,
    In stream (streams (world s1)) /\
    In inputCtx (openContexts (world s1)) /\
    audioContextRef s1 <> Some inputCtx /\
    forall es s', run es s1 = Some s' ->
      In stream (streams (world s')) /\ In inputCtx (openContexts (world s')).
Proof.
  intros Hreach Hstep.
  pose proof (@run_consistent _ es0 initialApp s consistent_initialApp Hreach)
    as [_ [_ [Hc _]]].
  simpl in Hstep. destruct (pendingMicRequests (world s)) as [|n]; [discriminate|].
  injection Hstep as <-.
  exists (fresh (world s)), (S (fresh (world s))).
  assert (Hin : In (fresh (world s))
                  (streams (world (microphoneGranted
                     (inWorld (with_pendingMicRequests n) s))))).
  { unfold microphoneGranted. cbn. apply in_or_app. right. left. reflexivity. }
  assert (Horphan : orphaned (S (fresh (world s)))
                      (microphoneGranted (inWorld (with_pendingMicRequests n) s))).
  { unfold orphaned, microphoneGranted. cbn. repeat split.
    - apply in_or_app. right. left. reflexivity.
    - intros E. destruct (Hc _ E) as [_ Hlt]. lia.
    - lia. }
  split; [exact Hin|]. split; [apply Horphan|]. split; [apply Horphan|].
  intros es s' Hrun. split.
  - eapply run_streams; eassumption.
  - eapply run_orphaned; eassumption.
Qed.

(** X14 on a first session, with the events of a teardown and of a second
    session following the grant. *)
Lemma capture_stream_and_context_are_never_released_witness :
  exists s1 stream inputCtx s',
    @run asciiRuntime [Click; Open; MicGranted] initialApp = Some s1 /\
    @run asciiRuntime [Click; Click; Open; MicGranted; Close] s1 = Some s' /\
    released s' /\
    In stream (streams (world s')) /\ In inputCtx (openContexts (world s')).
Proof.
  destruct (@capture_stream_and_context_are_never_released asciiRuntime
              [Click; Open]
              (mkApp INITIAL_DEVICES true false "Ouvindo... Pode falar."
                 (Some 0%nat) None None 0 (Some 1%nat) INITIAL_DEVICES
                 (mkWorld 2 [0%nat] [] [] [] 0 1 [] [] []))
              (mkApp INITIAL_DEVICES true true "Ouvindo... Pode falar."
                 (Some 0%nat) (Some 4%nat) (Some 5%nat) 0 (Some 1%nat) INITIAL_DEVICES
                 (mkWorld 6 [0%nat; 3%nat] [4%nat] [5%nat] [2%nat] 0 0 [] [] [])))
    as [stream [inputCtx [_ [_ [_ Hlater]]]]].
  { vm_compute. reflexivity. }
  { vm_compute. reflexivity. }
  eexists. exists stream, inputCtx.
  match eval vm_compute in
    (@run asciiRuntime [Click; Click; Open; MicGranted; Close]
       (mkApp INITIAL_DEVICES true true "Ouvindo... Pode falar."
          (Some 0%nat) (Some 4%nat) (Some 5%nat) 0 (Some 1%nat) INITIAL_DEVICES
          (mkWorld 6 [0%nat; 3%nat] [4%nat] [5%nat] [2%nat] 0 0 [] [] []))) with
  | Some ?t => exists t
  end.
  split; [vm_compute; reflexivity|].
  split; [vm_compute; reflexivity|].
  split; [repeat split|].
  apply (Hlater [Click; Click; Open; MicGranted; Close]).
  vm_compute. reflexivity.
Defined.

(** X15: pressing the microphone button again while the component is not
    yet connected starts a second connection: the output context already
    held is replaced in the ref without being closed, and no later event
    closes it. *)
Theorem context_replaced_by_a_second_press_stays_open `{Runtime}
    (es0 es : list Event) (s s' : App) (c : nat) :
  run es0 initialApp = Some s ->
  isLiveConnected s = false ->
  audioContextRef s = Some c ->
  run (Click :: es) s = Some s' ->
  In c (openContexts (world s')) /\ audioContextRef s' <> Some c.
Proof.
  intros Hreach Hlive Hheld Hrun.
  pose proof (@run_consistent _ es0 initialApp s consistent_initialApp Hreach)
    as [_ [_ [Hc _]]].
  destruct (Hc c Hheld) as [Hin Hlt].
  simpl in Hrun. unfold toggleConnection in Hrun. rewrite Hlive in Hrun.
  assert (Horphan : orphaned c (connectToGemini s)).
  { unfold orphaned, connectToGemini. cbn. repeat split.
    - apply in_or_app. now left.
    - intros E. injection E as E. lia.
    - lia. }
  destruct (run_orphaned es Horphan Hrun) as [Hin' [Hne' _]]. auto.
Qed.

(** X15: two presses, then the second session opens, runs and is closed
    by the user. *)
Lemma context_replaced_by_a_second_press_stays_open_witness :
  exists s s',
    @run asciiRuntime [Click] initialApp = Some s /\
    @run asciiRuntime [Click; Open; MicGranted; Click] s = Some s' /\
    released s' /\
    In 0%nat (openContexts (world s')) /\ audioContextRef s' <> Some 0%nat.
Proof.
  exists (connectToGemini initialApp).
  match eval vm_compute in
    (@run asciiRuntime [Click; Open; MicGranted; Click] (connectToGemini initialApp)) with
  | Some ?t => exists t
  end.
  split; [reflexivity|]. split; [vm_compute; reflexivity|].
  split; [repeat split|].
  apply (@context_replaced_by_a_second_press_stays_open asciiRuntime
           [Click] [Open; MicGranted; Click] (connectToGemini initialApp)).
  - reflexivity.
  - reflexivity.
  - reflexivity.
  - vm_compute. reflexivity.
Defined.

(** * The status line *)

Lemma onmessage_status `{Runtime} (msg : LiveServerMessage) (ctxTime : Q) (s : App) :
  statusMessage (onmessage msg ctxTime s) = statusMessage s /\
  isLiveConnected (onmessage msg ctxTime s) = isLiveConnected s.
Proof.
  unfold onmessage.
  set (s1 := match audioData msg with
             | Some data =>
                 match audioContextRef s with
                 | Some _ => if String.eqb data "" then s
                             else playAudioBuffer ctxTime (decodeAudioData data) s
                 | None => s
                 end
             | None => s
             end).
  assert (H1 : statusMessage s1 = statusMessage s /\ isLiveConnected s1 = isLiveConnected s).
  { subst s1. destruct (audioData msg) as [data|]; [|auto].
    destruct (audioContextRef s) eqn:E; [|auto].
    destruct (String.eqb data ""); [auto|].
    unfold playAudioBuffer. rewrite E. auto. }
  destruct (toolCall msg) as [calls|]; [|exact H1].
  destruct (toolLoop (devicesRef s1) calls (devices s1) []) as [devs [rs|]];
    exact H1.
Qed.

Lemma step_status `{Runtime} (e : Event) (s s' : App) :
  step e s = Some s' -> shownStatus (statusMessage s) -> shownStatus (statusMessage s').
Proof.
  unfold shownStatus.
  destruct e; simpl; intros Hstep Hs.
  - injection Hstep as <-. unfold toggleConnection. destruct (isLiveConnected s).
    + left. apply disconnect_released.
    + right. left. reflexivity.
  - injection Hstep as <-. exact Hs.
  - injection Hstep as <-. exact Hs.
  - injection Hstep as <-. exact Hs.
  - destruct (pendingHandshakes (world s)); [discriminate|]. injection Hstep as <-.
    right. right. reflexivity.
  - destruct (pendingMicRequests (world s)); [discriminate|]. injection Hstep as <-. exact Hs.
  - destruct (pendingMicRequests (world s)); [discriminate|]. injection Hstep as <-. exact Hs.
  - injection Hstep as <-. destruct (onmessage_status msg ctxTime s) as [-> _]. exact Hs.
  - injection Hstep as <-. left. apply disconnect_released.
  - injection Hstep as <-. left. apply disconnect_released.
  - destruct (existsb _ _); [|discriminate]. injection Hstep as <-. exact Hs.
Qed.

(** X16: after any sequence of events the status line is one of "Toque no
    microfone para falar", "Conectando..." and "Ouvindo... Pode falar.".
    The texts set on a failure ("Erro na conexão. Tente novamente." by
    [onerror], "Falha ao iniciar. Verifique o microfone." by the [catch] of
    [connectToGemini]) are replaced by the idle prompt before the handler
    returns, because [disconnect] sets the status after them. *)
Theorem error_texts_are_never_shown `{Runtime} (es : list Event) (s : App) :
  run es initialApp = Some s ->
  shownStatus (statusMessage s) /\
  statusMessage s <> "Erro na conexão. Tente novamente." /\
  statusMessage s <> "Falha ao iniciar. Verifique o microfone." /\
  forall t, statusMessage (onerror t) = "Toque no microfone para falar" /\
            statusMessage (connectCatch t) = "Toque no microfone para falar".
Proof.
  intros Hrun.
  assert (Hs : shownStatus (statusMessage s)).
  { revert Hrun. generalize (or_introl eq_refl :
      shownStatus (statusMessage initialApp)).
    generalize initialApp. induction es as [|e rest IH]; intros s0 H0 Hrun; simpl in Hrun.
    - now injection Hrun as <-.
    - destruct (step e s0) as [s1|] eqn:E; [|discriminate].
      apply (IH s1); [eapply step_status; eassumption | exact Hrun]. }
  split; [exact Hs|].
  split; [|split].
  - destruct Hs as [E|[E|E]]; rewrite E; discriminate.
  - destruct Hs as [E|[E|E]]; rewrite E; discriminate.
  - intros t. split; apply disconnect_released.
Qed.

(** X16 on a session that is opened and then fails. *)
Lemma error_texts_are_never_shown_witness :
  exists s,
    @run asciiRuntime [Click; Open; MicGranted; Error] initialApp = Some s /\
    statusMessage s = "Toque no microfone para falar" /\
    console (world s) = ["Gemini Error"].
Proof.
  match eval vm_compute in
    (@run asciiRuntime [Click; Open; MicGranted; Error] initialApp) with
  | Some ?t => exists t
  end.
  split; [vm_compute; reflexivity|].
  destruct (@error_texts_are_never_shown asciiRuntime [Click; Open; MicGranted; Error]
              (onerror (mkApp INITIAL_DEVICES true true "Ouvindo... Pode falar."
                 (Some 0%nat) (Some 4%nat) (Some 5%nat) 0 (Some 1%nat) INITIAL_DEVICES
                 (mkWorld 6 [0%nat; 3%nat] [4%nat] [5%nat] [2%nat] 0 0 [] [] []))))
    as [_ [_ [_ Hlast]]].
  { vm_compute. reflexivity. }
  split; [|reflexivity].
  exact (proj1 (Hlast (mkApp INITIAL_DEVICES true true "Ouvindo... Pode falar."
                 (Some 0%nat) (Some 4%nat) (Some 5%nat) 0 (Some 1%nat) INITIAL_DEVICES
                 (mkWorld 6 [0%nat; 3%nat] [4%nat] [5%nat] [2%nat] 0 0 [] [] [])))).
Defined.

(** X17: connecting and disconnecting is a round trip for the component:
    from a state that holds nothing, pressing the button, letting the
    session open and the microphone be granted, and pressing again is
    always possible and ends in a state that holds nothing, with the
    registry untouched and nothing sent. *)
Theorem connect_then_disconnect_round_trip `{Runtime} (s : App) :
  released s ->
  exists s',
    run [Click; Open; MicGranted; Click] s = Some s' /\
    released s' /\
    devices s' = devices s /\ devicesRef s' = devicesRef s /\
    outbox (world s') = outbox (world s).
Proof.
  intros [Hlive [Hact [Hst [Hp [Hi [Hc [Hse Hcur]]]]]]].
  destruct s as [devs live act st ctx src proc cur sess dref w]. simpl in *. subst.
  destruct w as [fr oc ls lp sm ph pm sch out con].
  eexists. split; [reflexivity|].
  split; [repeat split|]. simpl. repeat split.
Qed.

(** X17 from the initial state. *)
Lemma connect_then_disconnect_round_trip_witness :
  exists s',
    @run asciiRuntime [Click; Open; MicGranted; Click] initialApp = Some s' /\
    released s' /\
    devices s' = devices initialApp /\ devicesRef s' = devicesRef initialApp /\
    outbox (world s') = outbox (world initialApp).
Proof.
  apply (@connect_then_disconnect_round_trip asciiRuntime initialApp).
  repeat split.
Defined.

(** * The buttons of a device card *)

Lemma valueOrZero_eq (d : Device) (v : Q) :
  value d = Some v -> (valueOrZero d == v)%Q.
Proof.
  intros E. unfold valueOrZero. rewrite E.
  destruct (Qeq_bool v 0) eqn:Ez; [|reflexivity].
  apply Qeq_bool_iff in Ez. now rewrite Ez.
Qed.

Lemma decreased_bounds (d : Device) :
  (0 <= decreased d)%Q /\ (valueOrZero d <= 100 -> decreased d <= 100)%Q.
Proof.
  unfold decreased.
  destruct (Q.max_spec 0 (valueOrZero d - 10)) as [[Hlt ->]|[Hle ->]]; split; intros; lra.
Qed.

Lemma increased_bounds (d : Device) :
  (increased d <= 100)%Q /\ (0 <= valueOrZero d -> 0 <= increased d)%Q.
Proof.
  unfold increased.
  destruct (Q.min_spec 100 (valueOrZero d + 10)) as [[Hlt ->]|[Hle ->]]; split; intros; lra.
Qed.

Lemma inRange_changeDeviceValue (target : string) (v : Q) (l : list Device) :
  inRange l -> (0 <= v <= 100)%Q -> inRange (changeDeviceValue target (Some v) l).
Proof.
  unfold inRange, changeDeviceValue. intros Hl Hv d w Hd Hw.
  apply in_map_iff in Hd as [x [<- Hx]].
  destruct (String.eqb (id x) target).
  - simpl in Hw. injection Hw as <-. exact Hv.
  - now apply (Hl x).
Qed.

(** X18: the minus button never sends a value below 0 and the plus button
    never one above 100; on a registry whose values lie between 0 and 100,
    pressing either button of any card leaves every value between 0 and
    100.  (The tool dispatcher, which stores what it is given, offers no
    such bound.) *)
Theorem card_buttons_keep_values_in_range `{Runtime} (d : Device) (s : App) :
  inRange (devices s) -> In d (devices s) ->
  (0 <= decreased d)%Q /\ (increased d <= 100)%Q /\
  exists s1 s2,
    step (pressMinus d) s = Some s1 /\ step (pressPlus d) s = Some s2 /\
    inRange (devices s1) /\ inRange (devices s2).
Proof.
  intros Hrange Hd.
  assert (Hz : (0 <= valueOrZero d <= 100)%Q).
  { destruct (value d) as [v|] eqn:E.
    - rewrite (valueOrZero_eq d E). now apply (Hrange d).
    - unfold valueOrZero. rewrite E. lra. }
  destruct (decreased_bounds d) as [D0 D100].
  destruct (increased_bounds d) as [I100 I0].
  split; [exact D0|]. split; [exact I100|].
  eexists. eexists. split; [reflexivity|]. split; [reflexivity|].
  simpl. split; apply inRange_changeDeviceValue; auto; split; auto; tauto.
Qed.

(** X18 on the card of the kitchen light, which is at 100. *)
Lemma card_buttons_keep_values_in_range_witness :
  let d := mkDevice "4" "Luz da Cozinha" DeviceType.LIGHT true (Some 100%Q) "Cozinha" in
  (0 <= decreased d)%Q /\ (increased d <= 100)%Q /\
  exists s1 s2,
    @step asciiRuntime (pressMinus d) initialApp = Some s1 /\
    @step asciiRuntime (pressPlus d) initialApp = Some s2 /\
    inRange (devices s1) /\ inRange (devices s2).
Proof.
  cbv zeta.
  apply (@card_buttons_keep_values_in_range asciiRuntime
           (mkDevice "4" "Luz da Cozinha" DeviceType.LIGHT true (Some 100%Q) "Cozinha")
           initialApp).
  - intros d v Hd Hv. simpl in Hd.
    repeat (destruct Hd as [<-|Hd]; [simpl in Hv; try discriminate;
                                     injection Hv as <-; lra|]).
    destruct Hd.
  - simpl. do 3 right. left. reflexivity.
Defined.

(** X19: on a card that shows its buttons and holds a whole number (as
    every value of the initial registry does, and as every value the
    buttons produce from one does; on whole numbers of this size the
    additions are exact), minus then plus, or plus then minus, brings the
    value back to where it was as long as neither press saturates: from 10
    up for minus first, up to 90 for plus first.  At or below 10 minus
    gives 0, at or above 90 plus gives 100. *)
Theorem card_buttons_undo_each_other (d : Device) (z : Z) :
  value d = Some (inject_Z z) ->
  controlsShown d = true ->
  controlsShown (withValue (Some (decreased d)) d) = true /\
  controlsShown (withValue (Some (increased d)) d) = true /\
  ((10 <= z <= 100)%Z ->
     (increased (withValue (Some (decreased d)) d) == inject_Z z)%Q) /\
  ((0 <= z <= 90)%Z ->
     (decreased (withValue (Some (increased d)) d) == inject_Z z)%Q) /\
  ((z <= 10)%Z -> (decreased d == 0)%Q) /\
  ((90 <= z)%Z -> (increased d == 100)%Q).
Proof.
  intros E Hshown. pose proof (valueOrZero_eq d E) as Hz.
  assert (Hon : isOn d = true).
  { unfold controlsShown in Hshown. now rewrite E in Hshown. }
  assert (Hd : (valueOrZero (withValue (Some (decreased d)) d) == decreased d)%Q)
    by (apply valueOrZero_eq; reflexivity).
  assert (Hi : (valueOrZero (withValue (Some (increased d)) d) == increased d)%Q)
    by (apply valueOrZero_eq; reflexivity).
  assert (Hlow : forall a : Z, (a <= z)%Z -> (a # 1 <= inject_Z z)%Q)
    by (intros a Ha; change (a # 1) with (inject_Z a); now rewrite <- Zle_Qle).
  assert (Hhigh : forall a : Z, (z <= a)%Z -> (inject_Z z <= a # 1)%Q)
    by (intros a Ha; change (a # 1) with (inject_Z a); now rewrite <- Zle_Qle).
  split; [exact Hon|]. split; [exact Hon|].
  unfold increased, decreased in *.
  repeat split; intros Hv.
  - destruct Hv as [Hlo Hhi]. apply Hlow in Hlo. apply Hhigh in Hhi.
    destruct (Q.min_spec 100 (valueOrZero (withValue (Some (Qmax 0 (valueOrZero d - 10))) d) + 10))
      as [[Hlt ->]|[Hle ->]];
      destruct (Q.max_spec 0 (valueOrZero d - 10)) as [[Hm Hm']|[Hm Hm']];
      lra.
  - destruct Hv as [Hlo Hhi]. apply Hlow in Hlo. apply Hhigh in Hhi.
    destruct (Q.max_spec 0 (valueOrZero (withValue (Some (Qmin 100 (valueOrZero d + 10))) d) - 10))
      as [[Hlt ->]|[Hle ->]];
      destruct (Q.min_spec 100 (valueOrZero d + 10)) as [[Hm Hm']|[Hm Hm']];
      lra.
  - apply Hhigh in Hv.
    destruct (Q.max_spec 0 (valueOrZero d - 10)) as [[Hm ->]|[Hm ->]]; lra.
  - apply Hlow in Hv.
    destruct (Q.min_spec 100 (valueOrZero d + 10)) as [[Hm ->]|[Hm ->]]; lra.
Qed.

(** X19 on the card of the air conditioner, which is on and at 24. *)
Lemma card_buttons_undo_each_other_witness :
  let d := mkDevice "2" "Ar Condicionado" DeviceType.AC true (Some 24%Q) "Quarto Principal" in
  controlsShown d = true /\
  (increased (withValue (Some (decreased d)) d) == 24)%Q /\
  (decreased (withValue (Some (increased d)) d) == 24)%Q.
Proof.
  cbv zeta.
  destruct (@card_buttons_undo_each_other
              (mkDevice "2" "Ar Condicionado" DeviceType.AC true (Some 24%Q) "Quarto Principal")
              24%Z eq_refl eq_refl) as [_ [_ [Hmp [Hpm _]]]].
  split; [reflexivity|].
  split; [apply Hmp | apply Hpm]; lia.
Defined.

(** * The bars of the visualizer *)

(** X20: a bar of the visualizer is never shorter than 20 percent and
    never reaches 100 percent; it is exactly 20 percent when the
    visualizer is not active. *)
Theorem barHeight_bounds (isActive : bool) (random : Q) :
  (0 <= random < 1)%Q ->
  (20 <= barHeight isActive random < 100)%Q /\
  barHeight false random = 20%Q.
Proof.
  intros Hr. split; [|reflexivity].
  unfold barHeight. destruct isActive; [|lra].
  destruct (Q.max_spec 20 (random * 100)) as [[Hlt ->]|[Hle ->]]; lra.
Qed.

Lemma barHeight_bounds_witness :
  (20 <= barHeight true (1 # 2) < 100)%Q /\ barHeight false (1 # 2) = 20%Q.
Proof. apply (@barHeight_bounds true (1 # 2)). lra. Defined.

(** * A pipeline that is replaced keeps running *)

Lemma disconnect_processors (s : App) :
  liveProcessors (world (disconnect s)) =
    match processorRef s with
    | Some p => remove_handle p (liveProcessors (world s))
    | None => liveProcessors (world s)
    end.
Proof. destruct_app s; reflexivity. Qed.

Lemma strayProcessor_disconnect (p : nat) (s : App) :
  strayProcessor p s -> strayProcessor p (disconnect s).
Proof.
  unfold strayProcessor. intros [Hin [Hne Hlt]].
  rewrite disconnect_processors.
  destruct (disconnect_world s) as [_ [-> _]].
  destruct (disconnect_released s) as [_ [_ [_ [-> _]]]].
  repeat split; [|discriminate|exact Hlt].
  destruct (processorRef s) as [held|]; [|exact Hin].
  unfold remove_handle. apply filter_In. split; [exact Hin|].
  apply negb_true_iff, Nat.eqb_neq. congruence.
Qed.

Lemma sameSession_strayProcessor (p : nat) (s s' : App) :
  sameSession s s' -> strayProcessor p s -> strayProcessor p s'.
Proof.
  unfold sameSession, strayProcessor.
  intros [-> [_ [_ [_ [_ [_ [-> [_ ->]]]]]]]]. auto.
Qed.

Lemma strayProcessor_microphoneGranted (p : nat) (s : App) :
  strayProcessor p s -> strayProcessor p (microphoneGranted s).
Proof.
  unfold strayProcessor. intros [Hin [Hne Hlt]]. unfold microphoneGranted. cbn.
  repeat split; [apply in_or_app; now left | | lia].
  intros E. injection E as E. lia.
Qed.

Lemma step_strayProcessor `{Runtime} (p : nat) (e : Event) (s s' : App) :
  step e s = Some s' -> strayProcessor p s -> strayProcessor p s'.
Proof.
  destruct e; simpl; intros Hstep Hs.
  - injection Hstep as <-. unfold toggleConnection. destruct (isLiveConnected s).
    + now apply strayProcessor_disconnect.
    + unfold strayProcessor in *. unfold connectToGemini. cbn.
      destruct Hs as [Hin [Hne Hlt]]. repeat split; auto; lia.
  - injection Hstep as <-. revert Hs. apply sameSession_strayProcessor. repeat split.
  - injection Hstep as <-. revert Hs. apply sameSession_strayProcessor. repeat split.
  - injection Hstep as <-. revert Hs. apply sameSession_strayProcessor. repeat split.
  - destruct (pendingHandshakes (world s)); [discriminate|]. injection Hstep as <-.
    revert Hs. apply sameSession_strayProcessor. repeat split.
  - destruct (pendingMicRequests (world s)) as [|n]; [discriminate|]. injection Hstep as <-.
    apply strayProcessor_microphoneGranted.
    revert Hs. apply sameSession_strayProcessor. repeat split.
  - destruct (pendingMicRequests (world s)); [discriminate|]. injection Hstep as <-.
    revert Hs. apply sameSession_strayProcessor. repeat split.
  - injection Hstep as <-. revert Hs. apply sameSession_strayProcessor.
    apply sameSession_onmessage.
  - injection Hstep as <-. now apply strayProcessor_disconnect.
  - injection Hstep as <-. unfold onerror. apply strayProcessor_disconnect.
    revert Hs. apply sameSession_strayProcessor. repeat split.
  - destruct (existsb _ _); [|discriminate]. injection Hstep as <-.
    revert Hs. apply sameSession_strayProcessor. repeat split.
Qed.

Lemma run_strayProcessor `{Runtime} (p : nat) (es : list Event) (s s' : App) :
  strayProcessor p s -> run es s = Some s' -> strayProcessor p s'.
Proof.
  revert s. induction es as [|e rest IH]; intros s Hs Hrun; simpl in Hrun.
  - now injection Hrun as <-.
  - destruct (step e s) as [s1|] eqn:E; [|discriminate].
    apply (IH s1); [eapply step_strayProcessor; eassumption | exact Hrun].
Qed.

(** X21: if the microphone is granted while a capture pipeline is already
    held (two connections were started), the refs are overwritten and the
    processor held before is left wired.  Whatever happens afterwards,
    disconnect included, that processor can still deliver blocks, and each
    one is still sent to the session. *)
Theorem replaced_processor_keeps_sending `{Runtime} (es0 : list Event)
    (s s1 : App) (p : nat) :
  run es0 initialApp = Some s ->
  processorRef s = Some p ->
  step MicGranted s = Some s1 ->
  processorRef s1 <> Some p /\
  forall es s' inputData, run es s1 = Some s' ->
    exists s'',
      step (AudioProcess p inputData) s' = Some s'' /\
      outbox (world s'') =
        (outbox (world s') ++ [RealtimeInput (createPcmBlob inputData)])%list.
Proof.
  intros Hreach Hheld Hstep.
  pose proof (@run_consistent _ es0 initialApp s consistent_initialApp Hreach)
    as [Hp _].
  destruct (Hp p Hheld) as [Hin Hlt].
  simpl in Hstep. destruct (pendingMicRequests (world s)) as [|n]; [discriminate|].
  injection Hstep as <-.
  assert (Hstray : strayProcessor p
                     (microphoneGranted (inWorld (with_pendingMicRequests n) s))).
  { unfold strayProcessor, microphoneGranted. cbn. repeat split.
    - apply in_or_app. now left.
    - intros E. injection E as E. lia.
    - lia. }
  split; [apply Hstray|].
  intros es s' inputData Hrun.
  destruct (run_strayProcessor es Hstray Hrun) as [Hlive _].
  eexists. simpl. rewrite (existsb_eqb_in _ _ Hlive). split; reflexivity.
Qed.

(** X21: two presses, both sessions open and both microphone requests are
    granted; the user then disconnects and the first processor delivers a
    block. *)
Lemma replaced_processor_keeps_sending_witness :
  exists s s1 s' s'',
    @run countingRuntime [Click; Click; Open; Open; MicGranted] initialApp = Some s /\
    processorRef s = Some 7%nat /\
    @step countingRuntime MicGranted s = Some s1 /\
    @run countingRuntime [Click] s1 = Some s' /\
    released s' /\
    @step countingRuntime (AudioProcess 7 [0%Q; 0%Q; 0%Q]) s' = Some s'' /\
    outbox (world s'') = (outbox (world s') ++ [RealtimeInput "3"])%list.
Proof.
  match eval vm_compute in
    (@run countingRuntime [Click; Click; Open; Open; MicGranted] initialApp) with
  | Some ?t =>
      exists t;
      match eval vm_compute in (@step countingRuntime MicGranted t) with
      | Some ?t1 =>
          exists t1;
          match eval vm_compute in (@run countingRuntime [Click] t1) with
          | Some ?t2 =>
              exists t2;
              destruct (@replaced_processor_keeps_sending countingRuntime
                          [Click; Click; Open; Open; MicGranted] t t1 7%nat)
                as [_ Hlater];
                [vm_compute; reflexivity | reflexivity | vm_compute; reflexivity |];
              destruct (Hlater [Click] t2 [0%Q; 0%Q; 0%Q]) as [s'' [Hstep Hout]];
                [vm_compute; reflexivity|];
              exists s''
          end
      end
  end.
  split; [vm_compute; reflexivity|]. split; [reflexivity|].
  split; [vm_compute; reflexivity|]. split; [vm_compute; reflexivity|].
  split; [repeat split|]. split; [exact Hstep | exact Hout].
Defined.
